(** * Verification of the clean-architecture user domain (Go)

    Shallow embedding of
    - [internal/domain/entities/users.go]      (User, NewUser, validators, mutators),
    - [internal/domain/usecases/user_usecases.go] (the use-case orchestrators),
    - the in-memory [MockUserRepository] of [repositories/repo.md] and of the
      pointer demonstration program [unnamed/part_000].

    Go strings are byte strings: a Go [string] is a Rocq [string] (a sequence
    of 8-bit characters) and [len] is its [length].  Library functions of Go
    that the code calls ([strings.TrimSpace], [strings.ToLower],
    [strings.Contains], [regexp]) are modelled over these bytes, decoding
    UTF-8 the way [unicode/utf8] does.  A [time.Time] is modelled by its
    monotonic clock reading (a [Z]), which is what comparisons between two
    [time.Now()] results use. *)

From Stdlib Require Import ZArith String Ascii Lia.
From stdpp Require Import base gmap list strings.

Open Scope Z_scope.

(* ------------------------------------------------------------------ *)
(** ** Go strings as bytes and UTF-8 decoding ([unicode/utf8]) *)

Module GoStr.

Definition bytes (s : string) : list Z :=
  map (fun a => Z.of_N (N_of_ascii a)) (list_ascii_of_string s).

Definition of_bytes (bs : list Z) : string :=
  string_of_list_ascii (map (fun b => ascii_of_N (Z.to_N b)) bs).

(** [utf8.RuneError] *)
Definition RuneError : Z := 65533.

Definition is_cont (b : Z) : bool := (128 <=? b) && (b <=? 191).

Definition in_range (lo x hi : Z) : bool := (lo <=? x) && (x <=? hi).

(** [utf8.DecodeRuneInString]: the first rune and its width; an invalid or
    truncated sequence gives [(RuneError, 1)], the empty string [(RuneError, 0)]. *)
Definition DecodeRune (bs : list Z) : Z * nat :=
  match bs with
  | [] => (RuneError, 0%nat)
  | b0 :: rest =>
    if b0 <? 128 then (b0, 1%nat)
    else if in_range 194 b0 223 then
      match rest with
      | b1 :: _ =>
        if is_cont b1
        then (Z.lor (Z.shiftl (Z.land b0 31) 6) (Z.land b1 63), 2%nat)
        else (RuneError, 1%nat)
      | _ => (RuneError, 1%nat)
      end
    else if in_range 224 b0 239 then
      let lo := if b0 =? 224 then 160 else 128 in
      let hi := if b0 =? 237 then 159 else 191 in
      match rest with
      | b1 :: b2 :: _ =>
        if in_range lo b1 hi && is_cont b2
        then (Z.lor (Z.shiftl (Z.land b0 15) 12)
                (Z.lor (Z.shiftl (Z.land b1 63) 6) (Z.land b2 63)), 3%nat)
        else (RuneError, 1%nat)
      | _ => (RuneError, 1%nat)
      end
    else if in_range 240 b0 244 then
      let lo := if b0 =? 240 then 144 else 128 in
      let hi := if b0 =? 244 then 143 else 191 in
      match rest with
      | b1 :: b2 :: b3 :: _ =>
        if in_range lo b1 hi && is_cont b2 && is_cont b3
        then (Z.lor (Z.shiftl (Z.land b0 7) 18)
                (Z.lor (Z.shiftl (Z.land b1 63) 12)
                   (Z.lor (Z.shiftl (Z.land b2 63) 6) (Z.land b3 63))), 4%nat)
        else (RuneError, 1%nat)
      | _ => (RuneError, 1%nat)
      end
    else (RuneError, 1%nat)
  end.

(** The runes a [for range] loop (or the regexp engine) visits. *)
Fixpoint runes_fuel (fuel : nat) (bs : list Z) : list Z :=
  match fuel with
  | O => []
  | S fuel' =>
    match bs with
    | [] => []
    | _ => let (r, w) := DecodeRune bs in r :: runes_fuel fuel' (drop w bs)
    end
  end.

Definition runes (s : string) : list Z :=
  let bs := bytes s in runes_fuel (length bs) bs.

(** [utf8.RuneStart] *)
Definition RuneStart (b : Z) : bool := negb (is_cont b).

(** [utf8.DecodeLastRuneInString] *)
Definition DecodeLastRune (bs : list Z) : Z * nat :=
  let n := length bs in
  match last bs with
  | None => (RuneError, 0%nat)
  | Some b =>
    if b <? 128 then (b, 1%nat)
    else
      let lim := (n - 4)%nat in
      (* start := end-1; for start--; start >= lim; start-- { if RuneStart break } *)
      let cands := filter (fun i => RuneStart (nth i bs 0))
                     (rev (seq lim (n - 1 - lim))) in
      let start := match cands with
                   | i :: _ => i
                   | [] => if (0 <? lim)%nat then (lim - 1)%nat else 0%nat
                   end in
      let (r, size) := DecodeRune (drop start bs) in
      if (start + size =? n)%nat then (r, size) else (RuneError, 1%nat)
  end.

(** [unicode.IsSpace] *)
Definition IsSpace (r : Z) : bool :=
  if r <=? 255 then
    existsb (Z.eqb r) [9; 10; 11; 12; 13; 32; 133; 160]
  else
    (r =? 5760) || in_range 8192 r 8202 || (r =? 8232) || (r =? 8233)
    || (r =? 8239) || (r =? 8287) || (r =? 12288).

(** [strings.TrimLeftFunc(s, unicode.IsSpace)] on bytes. *)
Fixpoint trim_left_fuel (fuel : nat) (bs : list Z) : list Z :=
  match fuel with
  | O => bs
  | S fuel' =>
    match bs with
    | [] => []
    | _ => let (r, w) := DecodeRune bs in
           if IsSpace r then trim_left_fuel fuel' (drop w bs) else bs
    end
  end.

(** [strings.TrimRightFunc(s, unicode.IsSpace)] on bytes. *)
Fixpoint trim_right_fuel (fuel : nat) (bs : list Z) : list Z :=
  match fuel with
  | O => bs
  | S fuel' =>
    match bs with
    | [] => []
    | _ => let (r, w) := DecodeLastRune bs in
           if IsSpace r then trim_right_fuel fuel' (take (length bs - w) bs)
           else bs
    end
  end.

(** [strings.TrimSpace]: its ASCII fast path computes the same as
    [TrimFunc(s, unicode.IsSpace)]. *)
Definition TrimSpace (s : string) : string :=
  let bs := bytes s in
  let l := trim_left_fuel (length bs) bs in
  of_bytes (trim_right_fuel (length l) l).

(** [utf8.EncodeRune] for the runes [DecodeRune] produces. *)
Definition EncodeRune (r : Z) : list Z :=
  if r <? 128 then [r]
  else if r <? 2048 then
    [Z.lor 192 (Z.shiftr r 6); Z.lor 128 (Z.land r 63)]
  else if r <? 65536 then
    [Z.lor 224 (Z.shiftr r 12); Z.lor 128 (Z.land (Z.shiftr r 6) 63);
     Z.lor 128 (Z.land r 63)]
  else
    [Z.lor 240 (Z.shiftr r 18); Z.lor 128 (Z.land (Z.shiftr r 12) 63);
     Z.lor 128 (Z.land (Z.shiftr r 6) 63); Z.lor 128 (Z.land r 63)].

(** [unicode.ToLower], on Basic Latin and on the Latin-1 Supplement
    (U+00C0..U+00DE without U+00D7); the case tables beyond U+00FF are not
    part of this model, those runes are left as they are. *)
Definition RuneToLower (r : Z) : Z :=
  if in_range 65 r 90 then r + 32
  else if in_range 192 r 222 && negb (r =? 215) then r + 32
  else r.

(** [strings.ToLower]: the ASCII fast path, else [strings.Map(unicode.ToLower, s)],
    which re-encodes every rune (an invalid byte becomes U+FFFD). *)
Definition ToLower (s : string) : string :=
  let bs := bytes s in
  if forallb (fun b => b <? 128) bs
  then of_bytes (map (fun b => if in_range 65 b 90 then b + 32 else b) bs)
  else of_bytes (concat (map (fun r => EncodeRune (RuneToLower r)) (runes s))).

(** [strings.Contains(s, "@")] *)
Definition ContainsAt (s : string) : bool := existsb (Z.eqb 64) (bytes s).

End GoStr.

(* ------------------------------------------------------------------ *)
(** ** [entities/users.go] *)

Module Entities.
Import GoStr.

(** [type User struct] *)
Record User := mkUser {
  ID : Z;
  Email : string;
  Name : string;
  Password : string;
  Created : Z;
  Updated : Z
}.

(** A Go [error]: [None] is [nil]. *)
Definition error := option string.

(** The words of [offensiveNameRegex], [(?i)(fuck|shit|damn|idiot|stupid|hitler|cunt)]. *)
Definition offensive_words : list string :=
  ["fuck"; "shit"; "damn"; "idiot"; "stupid"; "hitler"; "cunt"]%string.

(** A rune matches a lower-case ASCII letter [c] of the pattern under [(?i)]:
    Go folds with [unicode.SimpleFold], whose orbits of [k] and [s] also hold
    U+212A KELVIN SIGN and U+017F LATIN SMALL LETTER LONG S. *)
Definition fold_match (c r : Z) : bool :=
  (r =? c) || (r =? c - 32) || ((c =? 115) && (r =? 383))
  || ((c =? 107) && (r =? 8490)).

Fixpoint match_at (ws rs : list Z) : bool :=
  match ws, rs with
  | [], _ => true
  | c :: ws', r :: rs' => fold_match c r && match_at ws' rs'
  | _ :: _, [] => false
  end.

Fixpoint match_anywhere (ws rs : list Z) : bool :=
  match rs with
  | [] => match_at ws []
  | _ :: rs' => match_at ws rs || match_anywhere ws rs'
  end.

(** [offensiveNameRegex.MatchString] (unanchored, over the decoded runes). *)
Definition offensiveNameRegex_MatchString (s : string) : bool :=
  existsb (fun w => match_anywhere (bytes w) (runes s)) offensive_words.

(** The class [[a-zA-ZÀ-ÿ\s\-'.]]; RE2's [\s] is [[\t\n\f\r ]]. *)
Definition validNameClass (r : Z) : bool :=
  in_range 97 r 122 || in_range 65 r 90 || in_range 192 r 255
  || existsb (Z.eqb r) [9; 10; 12; 13; 32] || (r =? 45) || (r =? 39) || (r =? 46).

(** [validNameRegex.MatchString], [^[...]+$]. *)
Definition validNameRegex_MatchString (s : string) : bool :=
  match runes s with
  | [] => false
  | rs => forallb validNameClass rs
  end.

Definition validateEmail (email : string) : error :=
  let email := TrimSpace email in
  if String.eqb email "" then Some "email can't be empty"%string
  else if negb (ContainsAt email) then Some "invalid email"%string
  else if (255 <? Z.of_nat (String.length email)) then Some "email too long"%string
  else None.

Definition validateName (name : string) : error :=
  let trimmedName := TrimSpace name in
  if String.eqb trimmedName "" then Some "empty name"%string
  else if Z.of_nat (String.length trimmedName) <? 2
  then Some "brother nobody has such a short name"%string
  else if 100 <? Z.of_nat (String.length trimmedName)
  then Some "brother nobody has such a long name"%string
  else if offensiveNameRegex_MatchString trimmedName
  then Some "offensive name"%string
  else if negb (validNameRegex_MatchString trimmedName)
  then Some "invalid characters"%string
  else None.

Definition validatePassword (password : string) : error :=
  if String.eqb password "" then Some "empty password"%string
  else if Z.of_nat (String.length password) <? 6 then Some "password too short"%string
  else if 128 <? Z.of_nat (String.length password) then Some "password too long"%string
  else None.

(** Go's [(T, error)] results. *)
Inductive Result (A : Type) :=
| Ok (a : A)
| Err (e : string).
Arguments Ok {A} a.
Arguments Err {A} e.

(** [NewUser(email, name, password)]; [now] is the reading of [time.Now()]. *)
Definition NewUser (now : Z) (email name password : string) : Result User :=
  match validateEmail email with
  | Some e => Err e
  | None =>
    match validateName name with
    | Some e => Err e
    | None =>
      match validatePassword password with
      | Some e => Err e
      | None =>
        Ok {| ID := 0;
              Email := ToLower (TrimSpace email);
              Name := TrimSpace name;
              Password := password;
              Created := now;
              Updated := now |}
      end
    end
  end.

(** [(u *User) UpdateUserProfile(name, email)]: the receiver is passed in and
    returned, the pointer's target after the call. *)
Definition UpdateUserProfile (now : Z) (name email : string) (u : User)
  : error * User :=
  match validateName name with
  | Some e => (Some e, u)
  | None =>
    match validateEmail email with
    | Some e => (Some e, u)
    | None =>
      (None, {| ID := ID u;
                Email := ToLower (TrimSpace email);
                Name := TrimSpace name;
                Password := Password u;
                Created := Created u;
                Updated := now |})
    end
  end.

(** [(u *User) ChangePassword(newPassword)] *)
Definition ChangePassword (now : Z) (newPassword : string) (u : User)
  : error * User :=
  match validatePassword newPassword with
  | Some e => (Some e, u)
  | None =>
    (None, {| ID := ID u; Email := Email u; Name := Name u;
              Password := newPassword; Created := Created u; Updated := now |})
  end.

End Entities.

(* ------------------------------------------------------------------ *)
(** ** The Go heap, the world and the state monad *)

Module Heap.
Import Entities.

(** A pointer [*entities.User]. *)
Definition loc := positive.

(** The observable world: the Go heap of [User] objects, the clock read by
    [time.Now()], the logger's sink, the goroutines spawned by [go] and not yet
    run (the welcome e-mails, each holding its [createdUser] pointer), and the
    private fields [st] of the repository implementation. *)
Record World (S : Type) := mkWorld {
  heap : gmap loc User;
  next_loc : loc;
  clock : Z;
  logs : list string;
  pending : list loc;
  st : S
}.
Arguments mkWorld {S}.
Arguments heap {S}.
Arguments next_loc {S}.
Arguments clock {S}.
Arguments logs {S}.
Arguments pending {S}.
Arguments st {S}.

(** State passing; [None] is a Go panic (a nil or dangling dereference). *)
Definition M (S A : Type) : Type := World S -> option A * World S.

Global Instance M_ret S : MRet (M S) := fun A a w => (Some a, w).
Global Instance M_bind S : MBind (M S) :=
  fun A B (k : A -> M S B) (m : M S A) w =>
    match m w with
    | (Some a, w') => k a w'
    | (None, w') => (None, w')
    end.

Definition set_heap {S} (h : gmap loc User) (w : World S) : World S :=
  mkWorld h (next_loc w) (clock w) (logs w) (pending w) (st w).
Definition set_st {S} (s : S) (w : World S) : World S :=
  mkWorld (heap w) (next_loc w) (clock w) (logs w) (pending w) s.

(** [&User{...}] / [userCopy := *user; &userCopy]: a fresh allocation. *)
Definition alloc {S} (u : User) : M S loc := fun w =>
  (Some (next_loc w),
   mkWorld (<[next_loc w := u]> (heap w)) (Pos.succ (next_loc w))
     (clock w) (logs w) (pending w) (st w)).

(** [*p] *)
Definition load {S} (p : loc) : M S User := fun w => (heap w !! p, w).

(** [*p = u] (a write through the pointer). *)
Definition store {S} (p : loc) (u : User) : M S unit := fun w =>
  match heap w !! p with
  | Some _ => (Some tt, set_heap (<[p := u]> (heap w)) w)
  | None => (None, w)
  end.

Definition get_st {S} : M S S := fun w => (Some (st w), w).
Definition put_st {S} (s : S) : M S unit := fun w => (Some tt, set_st s w).

(** [time.Now()] *)
Definition now {S} : M S Z := fun w => (Some (clock w), w).

(** [Logger.Info] / [Logger.Error]: observability only. *)
Definition log {S} (msg : string) : M S unit := fun w =>
  (Some tt, mkWorld (heap w) (next_loc w) (clock w) (logs w ++ [msg])
              (pending w) (st w)).

(** [go func() { ... }()] with the [createdUser] pointer it captures. *)
Definition spawn {S} (p : loc) : M S unit := fun w =>
  (Some tt, mkWorld (heap w) (next_loc w) (clock w) (logs w)
              (pending w ++ [p]) (st w)).

Fixpoint mapM {S A B} (f : A -> M S B) (xs : list A) : M S (list B) :=
  match xs with
  | [] => mret []
  | x :: xs' => y ← f x; ys ← mapM f xs'; mret (y :: ys)
  end.

End Heap.

(* ------------------------------------------------------------------ *)
(** ** [repositories.UserRepository] (the interface of repo.md) *)

Module Repo.
Import Entities Heap.

Class UserRepository (S : Type) := {
  Create : loc -> M S (Result loc);
  GetById : Z -> M S (Result loc);
  GetByEmail : string -> M S (Result loc);
  isEmailTaken : string -> M S (Result bool);
  Update : loc -> M S (Result loc);
  DeleteById : Z -> M S (Result unit);
  List : Z -> Z -> M S (Result (list loc));
  Count : M S (Result Z)
}.

End Repo.

(* ------------------------------------------------------------------ *)
(** ** [usecases/user_usecases.go] *)

Module UseCases.
Import GoStr Entities Heap Repo.

(** Go's [int] (64 bits) wraps around. *)
Definition wrap64 (z : Z) : Z := (z + 2 ^ 63) mod 2 ^ 64 - 2 ^ 63.

(** [PasswordHasher.Hash] and [EmailSender.SendWelcomeEmail]: external
    capabilities, passed to the use cases as plain functions. *)
Definition PasswordHasher := string -> Result string.
Definition EmailSender := string -> string -> error.

Record CreateUserRequest := { req_Email : string; req_Name : string;
                              req_Password : string }.

Record CreateUserResponse := {
  cr_ID : Z; cr_Email : string; cr_Name : string; cr_Created : Z }.

Record GetUserResponse := {
  gr_ID : Z; gr_Email : string; gr_Name : string; gr_Created : Z;
  gr_Updated : Z }.

Record UpdateUserRequest := { ur_ID : Z; ur_Email : string; ur_Name : string }.

Record UpdateUserResponse := {
  upr_ID : Z; upr_Email : string; upr_Name : string; upr_Updated : Z }.

Record ListUsersRequest := { lr_Page : Z; lr_PageSize : Z }.

Record ListUsersResponse := {
  lsr_Users : list GetUserResponse; lsr_Total : Z; lsr_Page : Z;
  lsr_PageSize : Z; lsr_TotalPages : Z }.

(** The response literals, field by field as the code writes them. *)
Definition create_response (u : User) : CreateUserResponse :=
  {| cr_ID := ID u; cr_Email := Email u; cr_Name := Name u;
     cr_Created := Created u |}.
Definition get_response (u : User) : GetUserResponse :=
  {| gr_ID := ID u; gr_Email := Email u; gr_Name := Name u;
     gr_Created := Created u; gr_Updated := Updated u |}.
Definition update_response (u : User) : UpdateUserResponse :=
  {| upr_ID := ID u; upr_Email := Email u; upr_Name := Name u;
     upr_Updated := Updated u |}.

Section UseCases.
Context {S : Type} `{UserRepository S}.

(** [CreateUserUseCase.Execute] *)
Definition CreateUserExecute (hasher : PasswordHasher) (req : CreateUserRequest)
  : M S (Result CreateUserResponse) :=
  log "Creating new user";;
  ex ← isEmailTaken (req_Email req);
  match ex with
  | Err _ =>
    log "Failed to check email existence";;
    mret (Err "erreur lors de la vérification de l'email")
  | Ok true => mret (Err "un utilisateur avec cet email existe déjà")
  | Ok false =>
    t ← now;
    match NewUser t (req_Email req) (req_Name req) (req_Password req) with
    | Err e => log "Failed to create user entity";; mret (Err e)
    | Ok nu =>
      user ← alloc nu;
      u ← load user;
      match hasher (Password u) with
      | Err _ =>
        log "Failed to hash password";;
        mret (Err "erreur lors du traitement du mot de passe")
      | Ok hashedPassword =>
        store user {| ID := ID u; Email := Email u; Name := Name u;
                      Password := hashedPassword; Created := Created u;
                      Updated := Updated u |};;
        c ← Create user;
        match c with
        | Err _ =>
          log "Failed to save user";;
          mret (Err "erreur lors de la création de l'utilisateur")
        | Ok createdUser =>
          spawn createdUser;;
          cu ← load createdUser;
          log "User created successfully";;
          mret (Ok (create_response cu))
        end
      end
    end
  end.

(** The body of the goroutine started by [CreateUserExecute], run later by the
    scheduler: it reads [createdUser] and only logs a failure. *)
Definition run_welcome (sender : EmailSender) : M S unit := fun w =>
  match pending w with
  | [] => (Some tt, w)
  | p :: rest =>
    let w1 := mkWorld (heap w) (next_loc w) (clock w) (logs w) rest (st w) in
    match heap w !! p with
    | None => (None, w1)
    | Some cu =>
      match sender (Email cu) (Name cu) with
      | None => (Some tt, w1)
      | Some _ => log "Failed to send welcome email" w1
      end
    end
  end.

(** [GetUserUseCase.ExecuteByID] *)
Definition GetUserExecuteByID (id : Z) : M S (Result GetUserResponse) :=
  r ← GetById id;
  match r with
  | Err _ => log "Failed to get user by ID";; mret (Err "utilisateur non trouvé")
  | Ok p => u ← load p; mret (Ok (get_response u))
  end.

(** [GetUserUseCase.ExecuteByEmail] *)
Definition GetUserExecuteByEmail (email : string) : M S (Result GetUserResponse) :=
  r ← GetByEmail email;
  match r with
  | Err _ => log "Failed to get user by email";; mret (Err "utilisateur non trouvé")
  | Ok p => u ← load p; mret (Ok (get_response u))
  end.

(** Steps 3 to 5 of [UpdateUserUseCase.Execute]. *)
Definition UpdateUserProceed (req : UpdateUserRequest) (user : loc)
  : M S (Result UpdateUserResponse) :=
  t ← now;
  u ← load user;
  match UpdateUserProfile t (ur_Name req) (ur_Email req) u with
  | (Some e, _) => log "Failed to update user profile";; mret (Err e)
  | (None, u') =>
    store user u';;
    r ← Update user;
    match r with
    | Err _ => log "Failed to save user update";; mret (Err "erreur lors de la mise à jour")
    | Ok _ =>
      u2 ← load user;
      log "User updated successfully";;
      mret (Ok (update_response u2))
    end
  end.

(** [UpdateUserUseCase.Execute] *)
Definition UpdateUserExecute (req : UpdateUserRequest) : M S (Result UpdateUserResponse) :=
  log "Updating user";;
  r ← GetById (ur_ID req);
  match r with
  | Err _ => log "Failed to get user for update";; mret (Err "utilisateur non trouvé")
  | Ok user =>
    u ← load user;
    if negb (String.eqb (Email u) (ur_Email req)) then
      ex ← isEmailTaken (ur_Email req);
      match ex with
      | Err _ =>
        log "Failed to check email existence for update";;
        mret (Err "erreur lors de la vérification de l'email")
      | Ok true => mret (Err "cet email est déjà utilisé")
      | Ok false => UpdateUserProceed req user
      end
    else UpdateUserProceed req user
  end.

(** [DeleteUserUseCase.Execute] *)
Definition DeleteUserExecute (id : Z) : M S error :=
  log "Deleting user";;
  r ← GetById id;
  match r with
  | Err _ => log "Failed to get user for deletion";; mret (Some "utilisateur non trouvé")
  | Ok _ =>
    d ← DeleteById id;
    match d with
    | Err _ => log "Failed to delete user";; mret (Some "erreur lors de la suppression")
    | Ok _ => log "User deleted successfully";; mret None
    end
  end.

(** The defaults of [ListUsersUseCase.Execute]. *)
Definition default_page (p : Z) : Z := if p =? 0 then 1 else p.
Definition default_page_size (ps : Z) : Z := if ps =? 0 then 10 else ps.

(** [offset := (req.Page - 1) * req.PageSize] *)
Definition list_offset (page ps : Z) : Z := wrap64 (wrap64 (page - 1) * ps).

(** [totalPages := (total + req.PageSize - 1) / req.PageSize] (truncating). *)
Definition total_pages (total ps : Z) : Z :=
  wrap64 (Z.quot (wrap64 (wrap64 (total + ps) - 1)) ps).

(** [ListUsersUseCase.Execute] *)
Definition ListUsersExecute (req : ListUsersRequest) : M S (Result ListUsersResponse) :=
  let page := default_page (lr_Page req) in
  let ps := default_page_size (lr_PageSize req) in
  let offset := list_offset page ps in
  r ← List ps offset;
  match r with
  | Err _ => log "Failed to list users";;
             mret (Err "erreur lors de la récupération des utilisateurs")
  | Ok users =>
    c ← Count;
    match c with
    | Err _ => log "Failed to count users";;
               mret (Err "erreur lors du comptage des utilisateurs")
    | Ok total =>
      us ← mapM load users;
      mret (Ok {| lsr_Users := map get_response us; lsr_Total := total;
                  lsr_Page := page; lsr_PageSize := ps;
                  lsr_TotalPages := total_pages total ps |})
    end
  end.

End UseCases.
End UseCases.

(* ------------------------------------------------------------------ *)
(** ** The in-memory [MockUserRepository] of [repositories/repo.md] *)

Module Mock.
Import GoStr Entities Heap Repo.

(** [users map[int]*User], [emails map[string]*User], [nextID int]; the mutex
    only serialises calls, which this sequential model does anyway. *)
Record MockUserRepository := mkMock {
  users : gmap Z loc;
  emails : gmap string loc;
  nextID : Z
}.

(** [NewMockUserRepository()] *)
Definition NewMockUserRepository : MockUserRepository := mkMock ∅ ∅ 1.

(** [(m *MockUserRepository) Create(ctx, user)], as repo.md writes it. *)
Definition mock_Create (user : loc) : M MockUserRepository (Result loc) :=
  m ← get_st;
  u ← load user;
  match emails m !! Email u with
  | Some _ => mret (Err "email déjà utilisé")
  | None =>
    (* user.ID = m.nextID; m.nextID++ (a Go [int], wrapping at 2^63) *)
    store user {| ID := nextID m; Email := Email u; Name := Name u;
                  Password := Password u; Created := Created u;
                  Updated := Updated u |};;
    put_st (mkMock (users m) (emails m) (UseCases.wrap64 (nextID m + 1)));;
    (* userCopy := *user *)
    u' ← load user;
    userCopy ← alloc u';
    (* m.users[user.ID] = &userCopy; m.emails[user.Email] = &userCopy *)
    m' ← get_st;
    put_st (mkMock (<[ID u' := userCopy]> (users m'))
                   (<[Email u' := userCopy]> (emails m')) (nextID m'));;
    mret (Ok userCopy)
  end.

(** The normalisation applied at write time ([NewUser]). *)
Definition normalize (e : string) : string := ToLower (TrimSpace e).

(** Modelled from the spec: [GetById] of the mock is not in the repository; the
    spec's "returns a fresh copy each call", written as the [GetByID] of
    [unnamed/part_000] ([userCopy := *user; return &userCopy]). *)
Definition mock_GetById (id : Z) : M MockUserRepository (Result loc) :=
  m ← get_st;
  match users m !! id with
  | None => mret (Err "user not found")
  | Some p => u ← load p; c ← alloc u; mret (Ok c)
  end.

(** Modelled from the spec: [GetByEmail] of the mock is not in the repository;
    a copy found through the e-mail index, with the write-time normalisation. *)
Definition mock_GetByEmail (email : string) : M MockUserRepository (Result loc) :=
  m ← get_st;
  match emails m !! normalize email with
  | None => mret (Err "user not found")
  | Some p => u ← load p; c ← alloc u; mret (Ok c)
  end.

(** Modelled from the spec: [isEmailTaken] ([ExistsByEmail]) of the mock is not
    in the repository; a lookup of the normalised e-mail in the index. *)
Definition mock_isEmailTaken (email : string) : M MockUserRepository (Result bool) :=
  m ← get_st;
  mret (Ok (bool_decide (is_Some (emails m !! normalize email)))).

(** Modelled from the spec: [Update] of the mock is not in the repository;
    repo.md's in-place option (Name, Email, Updated = time.Now()) with the
    spec's re-check of the e-mail index that excludes the record itself. *)
Definition mock_Update (user : loc) : M MockUserRepository (Result loc) :=
  m ← get_st;
  u ← load user;
  match users m !! ID u with
  | None => mret (Err "user not found")
  | Some p =>
    ex ← load p;
    match emails m !! Email u with
    | Some q => if bool_decide (q ≠ p) then mret (Err "email déjà utilisé")
                else mret (Ok tt)
    | None => mret (Ok tt)
    end ≫= fun chk =>
    match chk with
    | Err e => mret (Err e)
    | Ok _ =>
      t ← now;
      store p {| ID := ID ex; Email := Email u; Name := Name u;
                 Password := Password ex; Created := Created ex; Updated := t |};;
      put_st (mkMock (users m) (<[Email u := p]> (delete (Email ex) (emails m)))
                     (nextID m));;
      u' ← load p;
      c ← alloc u';
      mret (Ok c)
    end
  end.

(** Modelled from the spec: [DeleteById] of the mock is not in the repository;
    removes the record from both indexes. *)
Definition mock_DeleteById (id : Z) : M MockUserRepository (Result unit) :=
  m ← get_st;
  match users m !! id with
  | None => mret (Err "user not found")
  | Some p =>
    ex ← load p;
    put_st (mkMock (delete id (users m)) (delete (Email ex) (emails m)) (nextID m));;
    mret (Ok tt)
  end.

(** Modelled from the spec: [List(limit, offset)] of the mock is not in the
    repository; copies in ascending identifier order, at most [limit] of them
    after skipping [offset]. *)
Definition mock_List (limit offset : Z) : M MockUserRepository (Result (list loc)) :=
  m ← get_st;
  let ids := filter (fun i => is_Some (users m !! i)) (seqZ 1 (nextID m - 1)) in
  let page := take (Z.to_nat limit) (drop (Z.to_nat offset) ids) in
  ps ← mapM (fun i => match users m !! i with
                      | Some p => u ← load p; alloc u
                      | None => fun w => (None, w)
                      end) page;
  mret (Ok ps).

(** Modelled from the spec: [Count] of the mock, the number of live records. *)
Definition mock_Count : M MockUserRepository (Result Z) :=
  m ← get_st; mret (Ok (Z.of_nat (size (users m)))).

Global Instance MockRepo : UserRepository MockUserRepository := {
  Create := mock_Create;
  GetById := mock_GetById;
  GetByEmail := mock_GetByEmail;
  isEmailTaken := mock_isEmailTaken;
  Update := mock_Update;
  DeleteById := mock_DeleteById;
  List := mock_List;
  Count := mock_Count
}.

(** The index invariant of the store, for one live record: it is allocated,
    indexed under its e-mail and its e-mail is in normal form. *)
Definition wf_entry (w : World MockUserRepository) (p : loc) : bool :=
  match heap w !! p with
  | Some u => bool_decide (emails (st w) !! Email u = Some p)
              && String.eqb (normalize (Email u)) (Email u)
  | None => false
  end.

Definition store_wf (w : World MockUserRepository) : Prop :=
  map_Forall (fun _ p => wf_entry w p = true) (users (st w)).

(** The initial world: an empty heap and store at a given clock. *)
Definition init_world (t : Z) : World MockUserRepository :=
  mkWorld ∅ 1%positive t [] [] NewMockUserRepository.

End Mock.

(* ------------------------------------------------------------------ *)
(** ** The life of one [User] object *)

Module Lifecycle.
Import Entities.

(** A state is the clock and the object.  The clock only moves forward; the
    code changes a user through its mutators (successful or not) and through
    the use case's direct [user.Password = hashedPassword]. *)
Inductive life_step : Z * User -> Z * User -> Prop :=
| ls_tick t t' u : t <= t' -> life_step (t, u) (t', u)
| ls_profile t name email u :
    life_step (t, u) (t, snd (UpdateUserProfile t name email u))
| ls_password t pw u :
    life_step (t, u) (t, snd (ChangePassword t pw u))
| ls_hashed t h u :
    life_step (t, u) (t, {| ID := ID u; Email := Email u; Name := Name u;
                            Password := h; Created := Created u;
                            Updated := Updated u |}).

Definition time_inv (u0 : User) (s : Z * User) : Prop :=
  Created (snd s) = Created u0 /\ Created (snd s) <= Updated (snd s)
  /\ Updated (snd s) <= fst s.

End Lifecycle.

(* ------------------------------------------------------------------ *)
(** ** The acceptance condition of [NewUser], in the words of the spec *)

Module Acceptance.
Import GoStr Entities.

Definition is_ok {A} (r : Result A) : bool :=
  match r with Ok _ => true | Err _ => false end.

(** Case-insensitive comparison of a rune with a lower-case ASCII letter. *)
Definition ci_match (c r : Z) : bool := (r =? c) || (r =? c - 32).

Fixpoint ci_at (ws rs : list Z) : bool :=
  match ws, rs with
  | [], _ => true
  | c :: ws', r :: rs' => ci_match c r && ci_at ws' rs'
  | _ :: _, [] => false
  end.

Fixpoint ci_anywhere (ws rs : list Z) : bool :=
  match rs with
  | [] => ci_at ws []
  | _ :: rs' => ci_at ws rs || ci_anywhere ws rs'
  end.

Definition has_offensive (s : string) : bool :=
  existsb (fun w => ci_anywhere (bytes w) (runes s)) offensive_words.

Definition latin_letter (r : Z) : bool :=
  in_range 97 r 122 || in_range 65 r 90 || in_range 192 r 255.

(** "whitespace" as Go's [unicode.IsSpace] (the notion [TrimSpace] uses). *)
Definition ws_unicode (r : Z) : bool := IsSpace r.

(** "whitespace" as RE2's [\s]: tab, newline, form feed, carriage return, space. *)
Definition ws_re2 (r : Z) : bool := existsb (Z.eqb r) [9; 10; 12; 13; 32].

Definition email_accepted (email : string) : bool :=
  let t := TrimSpace email in
  negb (String.eqb t "") && ContainsAt t && (String.length t <=? 255)%nat.

Definition name_accepted (ws : Z -> bool) (name : string) : bool :=
  let t := TrimSpace name in
  (2 <=? String.length t)%nat && (String.length t <=? 100)%nat
  && negb (has_offensive t)
  && forallb (fun r => latin_letter r || ws r || (r =? 45) || (r =? 39) || (r =? 46))
       (runes t).

Definition password_accepted (pw : string) : bool :=
  negb (String.eqb pw "") && (6 <=? String.length pw)%nat
  && (String.length pw <=? 128)%nat.

(** The ceiling of [a / b] ([Z.div] is the floor for both signs of [b]). *)
Definition ceil_div (a b : Z) : Z := - ((- a) / b).

End Acceptance.

(* ------------------------------------------------------------------ *)
(** ** Scenarios over the mock store *)

Module Scenarios.
Import Entities Heap Repo UseCases Mock.

(** [CreateUserUseCase.Execute] followed by the goroutine it started. *)
Definition CreateUserScenario {S} `{UserRepository S} (sender : EmailSender)
  (hasher : PasswordHasher) (req : CreateUserRequest)
  : M S (Result CreateUserResponse) :=
  r ← CreateUserExecute hasher req; run_welcome sender;; mret r.

Definition ann : User :=
  {| ID := 0; Email := "a@x.com"; Name := "Ann"; Password := "secret1";
     Created := 100; Updated := 100 |}.

Definition demo_hasher : PasswordHasher := fun p => Ok ("bcrypt:" ++ p)%string.

Definition ann_request : CreateUserRequest :=
  {| req_Email := "a@x.com"; req_Name := "Ann"; req_Password := "secret1" |}.

(** The world after [Create("a@x.com", "Ann", "secret1")] on an empty store. *)
Definition world_ann : World MockUserRepository :=
  snd (CreateUserExecute demo_hasher ann_request (init_world 100)).

(** The name a [GetById(id)] returns (through the copy it hands out). *)
Definition name_via_GetById (id : Z) (w : World MockUserRepository) : option string :=
  match mock_GetById id w with
  | (Some (Ok p), w') => option_map Name (heap w' !! p)
  | _ => None
  end.

(** The e-mail a [GetById(id)] returns. *)
Definition email_via_GetById (id : Z) (w : World MockUserRepository) : option string :=
  match mock_GetById id w with
  | (Some (Ok p), w') => option_map Email (heap w' !! p)
  | _ => None
  end.

(** A caller's write [p.Name = name] through a pointer it holds. *)
Definition caller_sets_name (p : loc) (name : string) (w : World MockUserRepository)
  : World MockUserRepository :=
  match heap w !! p with
  | Some u => set_heap (<[p := {| ID := ID u; Email := Email u; Name := name;
                                  Password := Password u; Created := Created u;
                                  Updated := Updated u |}]> (heap w)) w
  | None => w
  end.

(** The caller allocates [ann] and hands the pointer to the mock's [Create]. *)
Definition create_ann : M MockUserRepository (Result loc) :=
  u ← alloc ann; mock_Create u.

(** The pointer a [GetById(id)] hands out, with the world after the call. *)
Definition pointer_from_GetById (id : Z) (w : World MockUserRepository)
  : option (loc * World MockUserRepository) :=
  match mock_GetById id w with
  | (Some (Ok p), w') => Some (p, w')
  | _ => None
  end.

End Scenarios.

(* ------------------------------------------------------------------ *)
(** ** Auxiliary notions on the byte model of Go strings *)

Module StrAux.
Import GoStr.

(** A byte value. *)
Definition byte_range (b : Z) : Prop := 0 <= b < 256.

(** An ASCII byte. *)
Definition ascii_byte (b : Z) : Prop := 0 <= b < 128.

(** [unicode.ToLower] on one ASCII byte. *)
Definition lower_byte (b : Z) : Z := if in_range 65 b 90 then b + 32 else b.

(** The first (resp. last) rune of a byte string is not white space. *)
Definition head_ok (bs : list Z) : bool :=
  match bs with [] => true | _ => negb (IsSpace (fst (DecodeRune bs))) end.
Definition last_ok (bs : list Z) : bool :=
  match bs with [] => true | _ => negb (IsSpace (fst (DecodeLastRune bs))) end.

End StrAux.

(* ------------------------------------------------------------------ *)
(** ** [(u *User) isValidUser()] of [entities/users.go] *)

Module Validity.
Import GoStr Entities.

(** [err == nil] *)
Definition is_nil (e : error) : bool := match e with None => true | Some _ => false end.

(** [validateEmail(u.Email) == nil && validateName(u.Name) == nil
     && validatePassword(u.Password) == nil] *)
Definition isValidUser (u : User) : bool :=
  is_nil (validateEmail (Email u)) && is_nil (validateName (Name u))
  && is_nil (validatePassword (Password u)).

(** A 255-byte address ending in the byte 0xFF (not UTF-8). *)
Definition long_email : string :=
  ("a@" ++ string_of_list_ascii (repeat "b"%char 252) ++ String (ascii_of_nat 255) "")%string.

End Validity.

(* ------------------------------------------------------------------ *)
(** ** Invariants of the world around the mock's [Create] *)

Module MockInv.
Import Entities Heap Mock.

(** Every allocated pointer lies below the allocator's next address. *)
Definition heap_wf {S} (w : World S) : Prop :=
  map_Forall (fun p _ => (p < next_loc w)%positive) (heap w).

(** Every identifier in use lies below [nextID]. *)
Definition ids_below (m : MockUserRepository) : Prop :=
  map_Forall (fun k _ => k < nextID m) (users m).

(** The object with its [ID] field set ([user.ID = m.nextID]). *)
Definition with_ID (id : Z) (u : User) : User :=
  {| ID := id; Email := Email u; Name := Name u; Password := Password u;
     Created := Created u; Updated := Updated u |}.

(** A second user, to be created after Ann. *)
Definition bob : User :=
  {| ID := 0; Email := "b@x.com"; Name := "Bob"; Password := "bcrypt:secret2";
     Created := 100; Updated := 100 |}.

(** The world after Ann's creation, with Bob's object allocated by the caller. *)
Definition world_bob : World MockUserRepository := snd (alloc bob Scenarios.world_ann).

End MockInv.

(* ------------------------------------------------------------------ *)
(** ** The demonstration repository of [unnamed/part_000] *)

Module Demo.
Import Heap.

(** [type User struct { ID int; Name string }] *)
Record DUser := mkDUser { dID : Z; dName : string }.

(** The heap of [User] objects of the demonstration program. *)
Record DWorld := mkDWorld { dheap : gmap loc DUser; dnext : loc }.

(** [type MockUserRepository struct { users map[int]*User }] *)
Record DRepo := mkDRepo { dusers : gmap Z loc }.

(** [&userCopy]: a fresh object holding a copy of the value. *)
Definition dalloc (u : DUser) (w : DWorld) : loc * DWorld :=
  (dnext w, mkDWorld (<[dnext w := u]> (dheap w)) (Pos.succ (dnext w))).

(** [(r *MockUserRepository) GetByID(id)]; [None] is a nil dereference. *)
Definition demo_GetByID (r : DRepo) (id : Z) (w : DWorld)
  : option (Entities.Result loc) * DWorld :=
  match dusers r !! id with
  | None => (Some (Entities.Err "user not found"), w)
  | Some p =>
    match dheap w !! p with
    | None => (None, w)
    | Some u => let (c, w') := dalloc u w in (Some (Entities.Ok c), w')
    end
  end.

(** [(r *MockUserRepository) List()], over the map's entries in the order
    [range] visits them (the caller gives that order). *)
Fixpoint demo_List (entries : list (Z * loc)) (w : DWorld) : option (list loc) * DWorld :=
  match entries with
  | [] => (Some [], w)
  | (_, p) :: rest =>
    match dheap w !! p with
    | None => (None, w)
    | Some u =>
      let (c, w1) := dalloc u w in
      let (res, w2) := demo_List rest w1 in
      (option_map (cons c) res, w2)
    end
  end.


(** Every allocated pointer lies below the next address. *)
Definition dheap_wf (w : DWorld) : Prop :=
  map_Forall (fun p _ => (p < dnext w)%positive) (dheap w).

(** The repository's pointers are live (no nil entry). *)
Definition stored_live (r : DRepo) (w : DWorld) : Prop :=
  map_Forall (fun _ p => is_Some (dheap w !! p)) (dusers r).

(** The repository of [demonstrateRepositoryMemory]. *)
Definition demo_repo : DRepo := mkDRepo {[1 := 1%positive; 2 := 2%positive]}.
Definition demo_world : DWorld :=
  mkDWorld {[1%positive := mkDUser 1 "Alice"; 2%positive := mkDUser 2 "Bob";
             3%positive := mkDUser 1 "Updated Alice"]} 4%positive.

End Demo.

(* ================================================================== *)
(** * Theorems *)

Module EntityFacts.
Import GoStr Entities Lifecycle.

Lemma NewUser_ok_inv t email name password u :
  NewUser t email name password = Ok u ->
  validateEmail email = None /\ validateName name = None
  /\ validatePassword password = None
  /\ u = {| ID := 0; Email := ToLower (TrimSpace email); Name := TrimSpace name;
            Password := password; Created := t; Updated := t |}.
Proof.
  unfold NewUser.
  destruct (validateEmail email) eqn:He; [discriminate|].
  destruct (validateName name) eqn:Hn; [discriminate|].
  destruct (validatePassword password) eqn:Hp; [discriminate|].
  intros Hok. injection Hok as <-. auto.
Qed.

(** C8: a user built by [NewUser] holds the lower-cased, trimmed e-mail, the
    trimmed name and the password unchanged. *)
Theorem NewUser_normalizes (t : Z) (email name password : string) (u : User)
  (Hok : NewUser t email name password = Ok u) :
  Email u = ToLower (TrimSpace email) /\ Name u = TrimSpace name
  /\ Password u = password.
Proof.
  apply NewUser_ok_inv in Hok as (_ & _ & _ & ->). simpl. auto.
Qed.

Lemma NewUser_normalizes_witness :
  NewUser 7 " Ann@Example.COM " "  Ann Lee " "secret1"
    = Ok {| ID := 0; Email := "ann@example.com"; Name := "Ann Lee";
            Password := "secret1"; Created := 7; Updated := 7 |}
  /\ Email {| ID := 0; Email := "ann@example.com"; Name := "Ann Lee";
              Password := "secret1"; Created := 7; Updated := 7 |}
     = ToLower (TrimSpace " Ann@Example.COM ").
Proof.
  assert (H : NewUser 7 " Ann@Example.COM " "  Ann Lee " "secret1"
    = Ok {| ID := 0; Email := "ann@example.com"; Name := "Ann Lee";
            Password := "secret1"; Created := 7; Updated := 7 |})
    by (vm_compute; reflexivity).
  split; [exact H|].
  exact (proj1 (NewUser_normalizes _ _ _ _ _ H)).
Defined.

(** C10: when [UpdateUserProfile] or [ChangePassword] returns an error, the
    receiver is left exactly as it was. *)
Theorem mutators_atomic_on_error (t : Z) (name email pw : string) (u : User) :
  (forall err u', UpdateUserProfile t name email u = (Some err, u') -> u' = u)
  /\ (forall err u', ChangePassword t pw u = (Some err, u') -> u' = u).
Proof.
  split; intros err u'.
  - unfold UpdateUserProfile.
    destruct (validateName name); [congruence|].
    destruct (validateEmail email); congruence.
  - unfold ChangePassword. destruct (validatePassword pw); congruence.
Qed.

Lemma life_step_inv u0 s s' :
  time_inv u0 s -> life_step s s' ->
  time_inv u0 s' /\ Updated (snd s) <= Updated (snd s').
Proof.
  unfold time_inv. intros (Hc & Hcu & Hun) Hstep.
  destruct Hstep as [t t' u Htt | t name email u | t pw u | t h u]; simpl in *.
  - lia.
  - unfold UpdateUserProfile.
    destruct (validateName name); [simpl; lia|].
    destruct (validateEmail email); simpl; lia.
  - unfold ChangePassword.
    destruct (validatePassword pw); simpl; lia.
  - lia.
Qed.

(** C3: [NewUser] sets [Updated = Created]; along any run of the clock and of
    the mutators [Created] never changes, [Created <= Updated] holds, and no
    step moves [Updated] backwards. *)
Theorem user_timestamps_invariant (t0 : Z) (email name password : string)
  (u0 : User) (Hok : NewUser t0 email name password = Ok u0) :
  Updated u0 = Created u0
  /\ forall s, rtc life_step (t0, u0) s ->
       Created (snd s) = Created u0 /\ Created (snd s) <= Updated (snd s)
       /\ forall s', life_step s s' -> Updated (snd s) <= Updated (snd s').
Proof.
  apply NewUser_ok_inv in Hok as (_ & _ & _ & ->). simpl.
  split; [reflexivity|].
  set (u0 := {| ID := 0; Email := _; Name := _; Password := _;
                Created := t0; Updated := t0 |}).
  assert (Hgen : forall s1 s2, rtc life_step s1 s2 -> time_inv u0 s1 -> time_inv u0 s2).
  { intros s1 s2 Hrtc. induction Hrtc as [s|s1 s2 s3 H12 H23 IH]; [tauto|].
    intros H1. apply IH. exact (proj1 (life_step_inv u0 _ _ H1 H12)). }
  assert (Hinv : forall s, rtc life_step (t0, u0) s -> time_inv u0 s).
  { intros s Hrtc. apply (Hgen _ _ Hrtc). unfold time_inv; simpl; lia. }
  intros s Hrtc. pose proof (Hinv s Hrtc) as Hs.
  destruct Hs as (Hc & Hcu & Hun). repeat split; [exact Hc|exact Hcu|].
  intros s' Hstep. exact (proj2 (life_step_inv u0 s s' (conj Hc (conj Hcu Hun)) Hstep)).
Qed.

Lemma user_timestamps_invariant_witness :
  NewUser 100 "a@x.com" "Ann" "secret1"
    = Ok {| ID := 0; Email := "a@x.com"; Name := "Ann"; Password := "secret1";
            Created := 100; Updated := 100 |}
  /\ 100 <= 100.
Proof.
  assert (H : NewUser 100 "a@x.com" "Ann" "secret1"
    = Ok {| ID := 0; Email := "a@x.com"; Name := "Ann"; Password := "secret1";
            Created := 100; Updated := 100 |}) by (vm_compute; reflexivity).
  split; [exact H|].
  pose proof (proj1 (user_timestamps_invariant _ _ _ _ _ H)) as E.
  simpl in E. lia.
Defined.

End EntityFacts.

Module AcceptanceFacts.
Import GoStr Entities Acceptance.

Lemma length_bytes (s : string) : length (bytes s) = String.length s.
Proof.
  unfold bytes. rewrite length_map.
  induction s as [|a s IH]; simpl; congruence.
Qed.

Lemma runes_nil_length (s : string) : runes s = [] -> String.length s = 0%nat.
Proof.
  unfold runes. rewrite <- length_bytes.
  destruct (bytes s) as [|b bs]; [reflexivity|].
  cbn [runes_fuel length]. destruct (DecodeRune (b :: bs)). intros H; discriminate H.
Qed.

Lemma validNameClass_small (r : Z) : validNameClass r = true -> r <= 255.
Proof.
  unfold validNameClass, in_range. intros H.
  repeat (apply orb_true_iff in H as [H|H]);
    repeat match goal with
           | H : _ && _ = true |- _ => apply andb_true_iff in H as [? ?]
           | H : (_ <=? _) = true |- _ => apply Z.leb_le in H
           | H : (_ =? _) = true |- _ => apply Z.eqb_eq in H
           | H : existsb _ _ = true |- _ => apply existsb_exists in H as (x & Hx & Hr)
           end; lia.
Qed.

Lemma fold_match_in_class (c r : Z) :
  validNameClass r = true -> fold_match c r = ci_match c r.
Proof.
  intros Hr. apply validNameClass_small in Hr.
  unfold fold_match, ci_match.
  destruct (Z.eqb_spec r 383); [lia|]. destruct (Z.eqb_spec r 8490); [lia|].
  rewrite !andb_false_r, !orb_false_r. reflexivity.
Qed.

Lemma match_at_in_class (ws rs : list Z) :
  forallb validNameClass rs = true -> match_at ws rs = ci_at ws rs.
Proof.
  revert rs. induction ws as [|c ws IH]; intros [|r rs] H; simpl; try reflexivity.
  simpl in H. apply andb_true_iff in H as [Hr Hrs].
  rewrite fold_match_in_class by exact Hr. rewrite IH by exact Hrs. reflexivity.
Qed.

Lemma match_anywhere_in_class (ws rs : list Z) :
  forallb validNameClass rs = true -> match_anywhere ws rs = ci_anywhere ws rs.
Proof.
  induction rs as [|r rs IH]; intros H; simpl.
  - apply match_at_in_class, H.
  - rewrite (match_at_in_class ws (r :: rs) H).
    simpl in H. apply andb_true_iff in H as [_ Hrs]. rewrite IH by exact Hrs.
    reflexivity.
Qed.

Lemma offensive_in_class (t : string) :
  forallb validNameClass (runes t) = true ->
  offensiveNameRegex_MatchString t = has_offensive t.
Proof.
  intros H. unfold offensiveNameRegex_MatchString, has_offensive.
  induction offensive_words as [|w ws IH]; simpl; [reflexivity|].
  rewrite match_anywhere_in_class by exact H. rewrite IH. reflexivity.
Qed.

Lemma name_class_spelled (r : Z) :
  validNameClass r
  = latin_letter r || ws_re2 r || (r =? 45) || (r =? 39) || (r =? 46).
Proof. reflexivity. Qed.

Lemma validateEmail_spec (email : string) :
  validateEmail email = None <-> email_accepted email = true.
Proof.
  unfold validateEmail, email_accepted. cbv zeta.
  destruct (String.eqb (TrimSpace email) ""); cbn [negb andb]; [split; discriminate|].
  destruct (ContainsAt (TrimSpace email)); cbn [negb andb]; [|split; discriminate].
  destruct (Z.ltb_spec 255 (Z.of_nat (String.length (TrimSpace email))));
    destruct (Nat.leb_spec (String.length (TrimSpace email)) 255);
    split; intros; try discriminate; try reflexivity; lia.
Qed.

Lemma validatePassword_spec (pw : string) :
  validatePassword pw = None <-> password_accepted pw = true.
Proof.
  unfold validatePassword, password_accepted.
  destruct (String.eqb pw ""); cbn [negb andb]; [split; discriminate|].
  destruct (Z.ltb_spec (Z.of_nat (String.length pw)) 6);
    destruct (Nat.leb_spec 6 (String.length pw));
    destruct (Z.ltb_spec 128 (Z.of_nat (String.length pw)));
    destruct (Nat.leb_spec (String.length pw) 128);
    simpl; split; intros; try discriminate; try reflexivity; lia.
Qed.

Lemma validateName_spec (name : string) :
  validateName name = None <-> name_accepted ws_re2 name = true.
Proof.
  unfold validateName, name_accepted, validNameRegex_MatchString. cbv zeta.
  set (t := TrimSpace name).
  assert (Hfa : forallb (fun r => latin_letter r || ws_re2 r || (r =? 45)
                                  || (r =? 39) || (r =? 46)) (runes t)
                = forallb validNameClass (runes t)) by reflexivity.
  rewrite Hfa.
  destruct (String.eqb_spec t "") as [Ht|Ht].
  { rewrite Ht. simpl. split; discriminate. }
  destruct (Z.ltb_spec (Z.of_nat (String.length t)) 2);
    destruct (Nat.leb_spec 2 (String.length t)); try lia;
    [split; [discriminate|simpl; discriminate]|].
  destruct (Z.ltb_spec 100 (Z.of_nat (String.length t)));
    destruct (Nat.leb_spec (String.length t) 100); try lia;
    [split; [discriminate|simpl; discriminate]|].
  simpl.
  destruct (forallb validNameClass (runes t)) eqn:Hcl.
  - rewrite (offensive_in_class t Hcl).
    destruct (has_offensive t); simpl; [split; discriminate|].
    destruct (runes t) as [|r rs] eqn:Hr.
    + apply runes_nil_length in Hr. lia.
    + simpl in Hcl |- *. rewrite Hcl. simpl. tauto.
  - rewrite andb_false_r.
    destruct (offensiveNameRegex_MatchString t); [split; discriminate|].
    destruct (runes t) as [|r rs]; [split; discriminate|].
    simpl in Hcl |- *. rewrite Hcl. simpl. split; discriminate.
Qed.

(** C9 (as amended): [NewUser] succeeds exactly when the trimmed e-mail is
    non-empty, holds '@' and has at most 255 bytes; the trimmed name has 2 to
    100 bytes, no offensive word (case-insensitively) and only Latin letters
    (with U+00C0..U+00FF), tab, newline, form feed, carriage return, space,
    '-', quote and '.'; and the password has 1 to 128 bytes, at least 6. *)
Theorem NewUser_acceptance (t : Z) (email name password : string) :
  is_ok (NewUser t email name password) = true
  <-> email_accepted email = true /\ name_accepted ws_re2 name = true
      /\ password_accepted password = true.
Proof.
  rewrite <- validateEmail_spec, <- validateName_spec, <- validatePassword_spec.
  unfold NewUser.
  destruct (validateEmail email); [simpl; split; [discriminate|intros (H & _); discriminate]|].
  destruct (validateName name); [simpl; split; [discriminate|intros (_ & H & _); discriminate]|].
  destruct (validatePassword password); simpl; [split; [discriminate|intros (_ & _ & H); discriminate]|].
  tauto.
Qed.

Definition name_with_vtab : string := ("Ab" ++ String (ascii_of_nat 11) "Cd")%string.

(** C9 (as stated): a name of letters around a vertical tab is whitespace for
    Go's [unicode.IsSpace], yet [NewUser] refuses it, since RE2's [\s] leaves
    out [\v]. *)
Lemma NewUser_acceptance_vtab :
  is_ok (NewUser 0 "a@b.co" name_with_vtab "secret1") = false
  /\ email_accepted "a@b.co" = true
  /\ name_accepted ws_unicode name_with_vtab = true
  /\ password_accepted "secret1" = true.
Proof. vm_compute. repeat split. Qed.

End AcceptanceFacts.

Module StoreFacts.
Import GoStr Entities Heap Repo UseCases Mock Scenarios Acceptance.

(** C1: the pointer the mock's [Create] returns is the one stored in its
    indexes ([m.users[user.ID] = &userCopy; return &userCopy]): a caller's
    write through it changes what a later [GetById(1)] returns, while a write
    through the copy [GetById] hands out does not. *)
Theorem mock_Create_returns_stored_pointer :
  let '(r, w1) := create_ann (init_world 100) in
  r = Some (Ok 2%positive)
  /\ name_via_GetById 1 w1 = Some "Ann"%string
  /\ name_via_GetById 1 (caller_sets_name 2%positive "Mallory" w1)
     = Some "Mallory"%string
  /\ match pointer_from_GetById 1 w1 with
     | Some (p, w2) => name_via_GetById 1 (caller_sets_name p "Eve" w2)
                       = Some "Ann"%string
     | None => False
     end.
Proof. vm_compute. repeat split. Qed.

(** C4: with "a@x.com" stored for user 1, an update of user 1 to "A@X.com",
    the same address in another case, is refused as taken: the use case
    compares the raw strings and the store's check finds user 1 itself. *)
Theorem Update_case_variant_rejected :
  normalize "A@X.com" = "a@x.com"%string
  /\ email_via_GetById 1 world_ann = Some "a@x.com"%string
  /\ fst (UpdateUserExecute {| ur_ID := 1; ur_Email := "A@X.com";
                               ur_Name := "Annie" |} world_ann)
     = Some (Err "cet email est déjà utilisé").
Proof. vm_compute. repeat split. Qed.

(** C5 (as stated): with one stored user and a page size of -1, the code's
    truncating [(total + pageSize - 1) / pageSize] gives 1, the ceiling of
    1 / -1 is -1. *)
Lemma ListUsers_negative_page_size :
  match fst (ListUsersExecute {| lr_Page := 1; lr_PageSize := -1 |} world_ann) with
  | Some (Ok resp) =>
    lsr_Total resp = 1 /\ lsr_PageSize resp = -1 /\ lsr_TotalPages resp = 1
    /\ ceil_div (lsr_Total resp) (lsr_PageSize resp) = -1
  | _ => False
  end.
Proof. vm_compute. repeat split. Qed.

Definition with_password (pw : string) (u : User) : User :=
  {| ID := ID u; Email := Email u; Name := Name u; Password := pw;
     Created := Created u; Updated := Updated u |}.

(** C7: every response the use cases build (Create, Get by id or e-mail and
    the items of List, Update) is a literal over identifier, e-mail, name and
    timestamps: it does not change with the credential. *)
Theorem responses_exclude_password (u : User) (pw : string) :
  create_response (with_password pw u) = create_response u
  /\ get_response (with_password pw u) = get_response u
  /\ update_response (with_password pw u) = update_response u.
Proof. repeat split. Qed.

End StoreFacts.

Module CreateFacts.
Import GoStr Entities Heap Repo UseCases Mock Scenarios Acceptance.

Definition ann_upper_request : CreateUserRequest :=
  {| req_Email := "A@X.com"; req_Name := "Ann Two"; req_Password := "secret2" |}.

(** C2: when a live record's e-mail equals the requested one under the
    store's case-insensitive comparison, the Create use case fails with the
    business-level "already exists" error and adds no record: the store's
    records, hence its [Count], are unchanged. *)
Theorem Create_duplicate_rejected (hasher : PasswordHasher)
  (req : CreateUserRequest) (w : World MockUserRepository)
  (id : Z) (p : loc) (r : User)
  (Hwf : store_wf w) (Hlive : users (st w) !! id = Some p)
  (Hrec : heap w !! p = Some r)
  (Hci : normalize (Email r) = normalize (req_Email req)) :
  fst (CreateUserExecute hasher req w)
    = Some (Err "un utilisateur avec cet email existe déjà")
  /\ users (st (snd (CreateUserExecute hasher req w))) = users (st w)
  /\ fst (Count (snd (CreateUserExecute hasher req w))) = fst (Count w).
Proof.
  pose proof (Hwf id p Hlive) as He. unfold wf_entry in He. rewrite Hrec in He.
  apply andb_true_iff in He as [Hidx Hnorm].
  apply bool_decide_eq_true in Hidx. apply String.eqb_eq in Hnorm.
  assert (Htaken : emails (st w) !! normalize (req_Email req) = Some p) by congruence.
  unfold CreateUserExecute, mock_isEmailTaken, get_st, log, mbind, M_bind, mret, M_ret.
  cbn -[normalize].
  unfold mock_isEmailTaken, get_st, mbind, M_bind, mret, M_ret. cbn -[normalize].
  rewrite Htaken. cbn -[normalize].
  repeat split.
Qed.

Lemma world_ann_wf : store_wf world_ann.
Proof. unfold store_wf. apply (bool_decide_unpack _). vm_compute. reflexivity. Qed.

Lemma Create_duplicate_rejected_witness :
  fst (CreateUserExecute demo_hasher ann_upper_request world_ann)
    = Some (Err "un utilisateur avec cet email existe déjà").
Proof.
  refine (proj1 (Create_duplicate_rejected demo_hasher ann_upper_request world_ann
                   1 2%positive
                   {| ID := 1; Email := "a@x.com"; Name := "Ann";
                      Password := "bcrypt:secret1"; Created := 100; Updated := 100 |}
                   world_ann_wf _ _ _)); vm_compute; reflexivity.
Defined.

End CreateFacts.

Module ListFacts.
Import GoStr Entities Heap Repo UseCases Mock Scenarios Acceptance.

Lemma wrap64_id (z : Z) : -2 ^ 63 <= z < 2 ^ 63 -> wrap64 z = z.
Proof. intros Hz. unfold wrap64. rewrite Z.mod_small; lia. Qed.

Lemma wrap64_add_l (a b : Z) : wrap64 (wrap64 a + b) = wrap64 (a + b).
Proof.
  unfold wrap64. f_equal.
  replace (a + 2 ^ 63) with (a + 2 ^ 63) by reflexivity.
  replace ((a + 2 ^ 63) mod 2 ^ 64 - 2 ^ 63 + b + 2 ^ 63)
    with ((a + 2 ^ 63) mod 2 ^ 64 + b) by lia.
  rewrite Zplus_mod_idemp_l. f_equal. lia.
Qed.

Lemma total_pages_ceil (total ps : Z) :
  0 <= total -> 0 < ps -> total + ps - 1 < 2 ^ 63 ->
  total_pages total ps = ceil_div total ps.
Proof.
  intros Ht Hps Hr. unfold total_pages, ceil_div.
  replace (wrap64 (total + ps) - 1) with (wrap64 (total + ps) + -1) by lia.
  rewrite wrap64_add_l. rewrite (wrap64_id (total + ps + -1)) by lia.
  rewrite Z.quot_div_nonneg by lia.
  assert (Hb : 0 <= (total + ps + -1) / ps <= total + ps + -1).
  { split; [apply Z.div_pos; lia|apply Z.div_le_upper_bound; [lia|]].
    pose proof (Z.mul_le_mono_nonneg_r 1 ps (total + ps + -1)) as Hm. lia. }
  rewrite wrap64_id by lia.
  pose proof (Z.div_mod (- total) ps ltac:(lia)) as Hq.
  pose proof (Z.mod_pos_bound (- total) ps Hps) as Hm.
  symmetry. apply (Z.div_unique _ _ _ (ps - 1 - (- total) mod ps)); [left; lia|lia].
Qed.

Lemma quot_abs_le (a b : Z) : b <> 0 -> Z.abs (Z.quot a b) <= Z.abs a.
Proof.
  intros Hb. rewrite <- Z.quot_abs by exact Hb.
  rewrite Z.quot_div_nonneg by lia.
  apply Z.div_le_upper_bound; [lia|]. nia.
Qed.

(** C5 (as amended): for every request, the defaults replace page 0 by 1 and
    page size 0 by 10; the store's [List] is called with limit = page size and
    offset (page-1)*pageSize, computed in 64-bit [int] (the exact product
    whenever it fits); the response holds the page, the page size and the
    store's [Count] as Total; TotalPages = (Total + PageSize - 1) / PageSize
    with truncating division whenever Total + PageSize - 1 does not overflow,
    and this is ceil(Total / PageSize) when Total and the requested page size
    are not negative. *)
Theorem ListUsers_pagination {S : Type} `{UserRepository S}
  (req : ListUsersRequest) (w : World S) (resp : ListUsersResponse)
  (Hok : fst (ListUsersExecute req w) = Some (Ok resp)) :
  let page := default_page (lr_Page req) in
  let ps := default_page_size (lr_PageSize req) in
  lsr_Page resp = page /\ lsr_PageSize resp = ps
  /\ (exists users w1 w2, List ps (list_offset page ps) w = (Some (Ok users), w1)
                          /\ Count w1 = (Some (Ok (lsr_Total resp)), w2))
  /\ (-2 ^ 63 <= page - 1 < 2 ^ 63 -> -2 ^ 63 <= (page - 1) * ps < 2 ^ 63 ->
      list_offset page ps = (page - 1) * ps)
  /\ (-2 ^ 63 < lsr_Total resp + ps - 1 < 2 ^ 63 - 1 ->
      lsr_TotalPages resp = Z.quot (lsr_Total resp + ps - 1) ps)
  /\ (0 <= lsr_Total resp -> 0 <= lr_PageSize req -> lsr_Total resp + ps - 1 < 2 ^ 63 ->
      lsr_TotalPages resp = ceil_div (lsr_Total resp) ps).
Proof.
  cbv zeta.
  assert (Hps0 : default_page_size (lr_PageSize req) <> 0).
  { unfold default_page_size. destruct (Z.eqb_spec (lr_PageSize req) 0); lia. }
  revert Hok. unfold ListUsersExecute, mbind, M_bind, mret, M_ret. cbv zeta.
  destruct (List (default_page_size (lr_PageSize req))
              (list_offset (default_page (lr_Page req))
                 (default_page_size (lr_PageSize req))) w)
    as [[[users|e]|] w1] eqn:HL; simpl; try discriminate.
  destruct (Count w1) as [[[total|e]|] w2] eqn:HC; simpl; try discriminate.
  destruct (mapM load users w2) as [[us|] w3]; simpl; try discriminate.
  intros Hok. injection Hok as <-. simpl.
  split; [reflexivity|]. split; [reflexivity|].
  split; [exists users, w1, w2; split; [reflexivity|exact HC]|].
  split; [|split].
  - intros Hp Hprod. unfold list_offset. rewrite (wrap64_id (_ - 1)) by lia.
    apply wrap64_id; lia.
  - intros Hr. set (ps := default_page_size (lr_PageSize req)) in *.
    unfold total_pages. rewrite (wrap64_id (total + ps)) by lia.
    rewrite (wrap64_id (total + ps - 1)) by lia.
    pose proof (quot_abs_le (total + ps - 1) ps Hps0). apply wrap64_id. lia.
  - intros Ht Hreq Hr.
    assert (Hps : 0 < default_page_size (lr_PageSize req)).
    { unfold default_page_size. destruct (Z.eqb_spec (lr_PageSize req) 0); lia. }
    apply total_pages_ceil; lia.
Qed.

Lemma ListUsers_pagination_witness :
  lsr_TotalPages
    {| lsr_Users := [get_response {| ID := 1; Email := "a@x.com"; Name := "Ann";
                                     Password := "bcrypt:secret1";
                                     Created := 100; Updated := 100 |}];
       lsr_Total := 1; lsr_Page := 1; lsr_PageSize := 10; lsr_TotalPages := 1 |}
  = ceil_div 1 10.
Proof.
  assert (Hok : fst (ListUsersExecute {| lr_Page := 0; lr_PageSize := 0 |} world_ann)
    = Some (Ok {| lsr_Users := [get_response {| ID := 1; Email := "a@x.com";
                     Name := "Ann"; Password := "bcrypt:secret1";
                     Created := 100; Updated := 100 |}];
                  lsr_Total := 1; lsr_Page := 1; lsr_PageSize := 10;
                  lsr_TotalPages := 1 |})) by (vm_compute; reflexivity).
  pose proof (ListUsers_pagination {| lr_Page := 0; lr_PageSize := 0 |} world_ann _ Hok)
    as H.
  cbv zeta in H. destruct H as (_ & _ & _ & _ & _ & Hceil).
  apply Hceil; unfold default_page_size; simpl; lia.
Defined.

End ListFacts.

Module NotifyFacts.
Import Entities Heap Repo UseCases Scenarios.

(** C6: the outcome of the Create scenario (the use case followed by the
    welcome-mail goroutine it started) does not depend on the e-mail sender:
    two senders give the same result and the same heap, repository state and
    goroutine queue, and differ at most by one logged line. When the use case
    succeeded and the goroutine's [createdUser] pointer is live, the scenario
    returns exactly the use case's result, whatever the sender returns; a
    sender failure only appends "Failed to send welcome email" to the log. *)
Theorem Create_result_independent_of_notification {S} `{UserRepository S}
  (hasher : PasswordHasher) (req : CreateUserRequest) (w : World S)
  (sender1 sender2 : EmailSender) :
  let w0 := snd (CreateUserExecute hasher req w) in
  let s1 := CreateUserScenario sender1 hasher req w in
  let s2 := CreateUserScenario sender2 hasher req w in
  fst s1 = fst s2
  /\ heap (snd s1) = heap (snd s2)
  /\ st (snd s1) = st (snd s2)
  /\ pending (snd s1) = pending (snd s2)
  /\ (exists extra, logs (snd s1) = logs w0 ++ extra
        /\ (extra = [] \/ extra = ["Failed to send welcome email"]))
  /\ (forall r, fst (CreateUserExecute hasher req w) = Some r ->
        (forall p rest, pending w0 = p :: rest -> is_Some (heap w0 !! p)) ->
        fst s1 = Some r).
Proof.
  cbv zeta. unfold CreateUserScenario, mbind, M_bind, mret, M_ret.
  destruct (CreateUserExecute hasher req w) as [[r|] w0] eqn:E; cbn [fst snd].
  - unfold run_welcome.
    destruct (pending w0) as [|p rest] eqn:Ep;
      [|destruct (heap w0 !! p) as [cu|] eqn:Eh;
        [unfold log; destruct (sender1 (Email cu) (Name cu)),
                              (sender2 (Email cu) (Name cu))|]];
      cbn [fst snd heap st pending logs]; repeat split; auto;
      try (intros r' Hr; injection Hr as <-; reflexivity);
      try (exists ["Failed to send welcome email"]; split;
           [reflexivity|right; reflexivity]);
      try (exists []; rewrite app_nil_r; split; [reflexivity|left; reflexivity]).
    intros r' _ Hlive. destruct (Hlive p rest eq_refl) as [x Hx]. congruence.
  - repeat split; auto;
      try (exists []; rewrite app_nil_r; split; [reflexivity|left; reflexivity]).
Qed.

End NotifyFacts.

(* ------------------------------------------------------------------ *)
(** ** Strings, validation and [isValidUser] *)

Module StrFacts.
Import GoStr Entities AcceptanceFacts StrAux Validity.

Lemma bytes_range (s : string) : Forall byte_range (bytes s).
Proof.
  unfold bytes. induction s as [|a s IH]; simpl; constructor; auto.
  unfold byte_range. pose proof (N_ascii_bounded a). lia.
Qed.

Lemma bytes_of_bytes (bs : list Z) : Forall byte_range bs -> bytes (of_bytes bs) = bs.
Proof.
  unfold bytes, of_bytes. rewrite list_ascii_of_string_of_list_ascii.
  induction 1 as [|b bs Hb _ IH]; simpl; [reflexivity|].
  rewrite IH. unfold byte_range in Hb. rewrite N_ascii_embedding by lia.
  f_equal. lia.
Qed.

Lemma DecodeRune_width (bs : list Z) :
  bs <> [] -> (1 <= snd (DecodeRune bs) <= length bs)%nat.
Proof.
  intros Hne. destruct bs as [|b0 [|b1 [|b2 [|b3 rest]]]]; [congruence| | | |];
    unfold DecodeRune; repeat (case_match; simpl in *); try lia.
Qed.

Lemma DecodeRune_take (k : nat) (bs : list Z) :
  (0 < k)%nat ->
  fst (DecodeRune (take k bs)) = fst (DecodeRune bs)
  \/ fst (DecodeRune (take k bs)) = RuneError.
Proof.
  intros Hk.
  destruct k as [|[|[|[|k]]]]; [lia| | | |];
  destruct bs as [|b0 [|b1 [|b2 [|b3 rest]]]]; simpl; auto;
  unfold DecodeRune; repeat case_match; simpl; auto.
Qed.

Lemma DecodeLastRune_width (bs : list Z) :
  bs <> [] -> (1 <= snd (DecodeLastRune bs) <= length bs)%nat.
Proof.
  intros Hne. unfold DecodeLastRune.
  destruct (last bs) as [b|] eqn:Hl; [|apply last_None in Hl; congruence].
  assert (Hn : (1 <= length bs)%nat) by (destruct bs; [congruence|simpl; lia]).
  destruct (b <? 128); [simpl; lia|].
  set (lim := (length bs - 4)%nat).
  set (cands := filter _ _).
  assert (Hst : forall i, i ∈ cands -> (i < length bs)%nat).
  { intros i Hi. unfold cands in Hi. apply list_elem_of_filter in Hi as [_ Hi].
    apply list_elem_of_In, in_rev, list_elem_of_In, elem_of_seq in Hi. lia. }
  assert (Hgen : forall start, (start < length bs)%nat ->
    (1 <= snd (let (r, size) := DecodeRune (drop start bs) in
               if (start + size =? length bs)%nat then (r, size) else (RuneError, 1%nat))
     <= length bs)%nat).
  { intros start Hs.
    destruct (DecodeRune (drop start bs)) as [r size] eqn:Hd.
    destruct (start + size =? length bs)%nat eqn:E; simpl; [apply Nat.eqb_eq in E; lia|lia]. }
  destruct cands as [|i c] eqn:Hc; apply Hgen.
  - destruct (0 <? lim)%nat eqn:E; [apply Nat.ltb_lt in E|]; lia.
  - apply Hst. set_solver.
Qed.

Lemma trim_left_head_ok (n : nat) (bs : list Z) :
  (length bs <= n)%nat -> head_ok (trim_left_fuel n bs) = true.
Proof.
  revert bs. induction n as [|n IH]; intros bs Hl.
  - destruct bs; simpl in *; [reflexivity|lia].
  - destruct bs as [|b bs']; [reflexivity|].
    assert (Hw := DecodeRune_width (b :: bs') ltac:(discriminate)).
    cbn [trim_left_fuel].
    destruct (DecodeRune (b :: bs')) as [r w] eqn:Hd. simpl in Hw.
    destruct (IsSpace r) eqn:Hs.
    + apply IH. rewrite length_drop. simpl in Hl, Hw |- *. lia.
    + unfold head_ok. rewrite Hd. simpl. rewrite Hs. reflexivity.
Qed.

Lemma trim_left_Forall (P : Z -> Prop) (n : nat) (bs : list Z) :
  Forall P bs -> Forall P (trim_left_fuel n bs).
Proof.
  revert bs. induction n as [|n IH]; intros bs H; simpl; [exact H|].
  destruct bs as [|b bs']; [constructor|].
  destruct (DecodeRune (b :: bs')) as [r w].
  destruct (IsSpace r); [apply IH, Forall_drop, H|exact H].
Qed.

Lemma trim_right_Forall (P : Z -> Prop) (n : nat) (bs : list Z) :
  Forall P bs -> Forall P (trim_right_fuel n bs).
Proof.
  revert bs. induction n as [|n IH]; intros bs H; simpl; [exact H|].
  destruct bs as [|b bs']; [constructor|].
  destruct (DecodeLastRune (b :: bs')) as [r w].
  destruct (IsSpace r); [apply IH, Forall_take, H|exact H].
Qed.

Lemma IsSpace_RuneError : IsSpace RuneError = false.
Proof. reflexivity. Qed.

Lemma head_ok_take (k : nat) (bs : list Z) :
  head_ok bs = true -> head_ok (take k bs) = true.
Proof.
  intros H. destruct (take k bs) as [|c cs] eqn:Ht; [reflexivity|].
  assert (Hk : (0 < k)%nat) by (destruct k; [discriminate|lia]).
  destruct bs as [|b bs']; [rewrite take_nil in Ht; discriminate|].
  unfold head_ok in *. rewrite <- Ht.
  destruct (DecodeRune_take k (b :: bs') Hk) as [E|E]; rewrite E; [exact H|reflexivity].
Qed.

Lemma trim_right_ok (n : nat) (bs : list Z) :
  (length bs <= n)%nat -> head_ok bs = true ->
  head_ok (trim_right_fuel n bs) = true /\ last_ok (trim_right_fuel n bs) = true.
Proof.
  revert bs. induction n as [|n IH]; intros bs Hl Hh.
  - destruct bs; simpl in *; [auto|lia].
  - destruct bs as [|b bs']; [simpl; auto|].
    assert (Hw := DecodeLastRune_width (b :: bs') ltac:(discriminate)).
    cbn [trim_right_fuel].
    destruct (DecodeLastRune (b :: bs')) as [r w] eqn:Hd. simpl in Hw.
    destruct (IsSpace r) eqn:Hs.
    + apply IH; [rewrite length_take; simpl in Hl, Hw |- *; lia|apply head_ok_take, Hh].
    + split; [exact Hh|]. unfold last_ok. rewrite Hd. simpl. rewrite Hs. reflexivity.
Qed.

Lemma trim_left_id (n : nat) (bs : list Z) :
  head_ok bs = true -> trim_left_fuel n bs = bs.
Proof.
  intros H. destruct n as [|n]; [reflexivity|]. simpl.
  destruct bs as [|b bs']; [reflexivity|]. unfold head_ok in H.
  destruct (DecodeRune (b :: bs')) as [r w]. simpl in H.
  destruct (IsSpace r); [discriminate|reflexivity].
Qed.

Lemma trim_right_id (n : nat) (bs : list Z) :
  last_ok bs = true -> trim_right_fuel n bs = bs.
Proof.
  intros H. destruct n as [|n]; [reflexivity|]. simpl.
  destruct bs as [|b bs']; [reflexivity|]. unfold last_ok in H.
  destruct (DecodeLastRune (b :: bs')) as [r w]. simpl in H.
  destruct (IsSpace r); [discriminate|reflexivity].
Qed.

Lemma TrimSpace_bytes_ok (s : string) :
  Forall byte_range (bytes (TrimSpace s))
  /\ head_ok (bytes (TrimSpace s)) = true /\ last_ok (bytes (TrimSpace s)) = true.
Proof.
  unfold TrimSpace.
  set (l := trim_left_fuel _ (bytes s)).
  assert (Hf : Forall byte_range (trim_right_fuel (length l) l))
    by (apply trim_right_Forall, trim_left_Forall, bytes_range).
  rewrite bytes_of_bytes by exact Hf.
  split; [exact Hf|]. apply trim_right_ok; [lia|]. apply trim_left_head_ok. lia.
Qed.

Lemma TrimSpace_of_ok (s : string) :
  head_ok (bytes s) = true -> last_ok (bytes s) = true -> TrimSpace s = s.
Proof.
  intros Hh Hl. unfold TrimSpace.
  rewrite (trim_left_id _ _ Hh), (trim_right_id _ _ Hl).
  unfold bytes, of_bytes. rewrite map_map.
  rewrite (map_ext _ (fun a => a)).
  - rewrite map_id. apply string_of_list_ascii_of_string.
  - intros a. rewrite N2Z.id. apply ascii_N_embedding.
Qed.

Lemma TrimSpace_idempotent (s : string) : TrimSpace (TrimSpace s) = TrimSpace s.
Proof.
  destruct (TrimSpace_bytes_ok s) as (_ & Hh & Hl). apply TrimSpace_of_ok; assumption.
Qed.

Lemma TrimSpace_Forall (P : Z -> Prop) (s : string) :
  Forall P (bytes s) -> Forall P (bytes (TrimSpace s)).
Proof.
  intros H. unfold TrimSpace.
  rewrite bytes_of_bytes
    by (apply trim_right_Forall, trim_left_Forall, bytes_range).
  apply trim_right_Forall, trim_left_Forall, H.
Qed.

Lemma ToLower_ascii_bytes (s : string) :
  Forall ascii_byte (bytes s) -> bytes (ToLower s) = map lower_byte (bytes s).
Proof.
  intros H. unfold ToLower.
  assert (Hf : forallb (fun b => b <? 128) (bytes s) = true).
  { apply forallb_forall. intros b Hb. apply Z.ltb_lt.
    rewrite Forall_forall in H. apply list_elem_of_In in Hb. apply H in Hb.
    unfold ascii_byte in Hb. lia. }
  rewrite Hf. apply bytes_of_bytes.
  apply Forall_map. eapply Forall_impl; [exact H|].
  intros b Hb. unfold ascii_byte, byte_range, lower_byte, in_range in *.
  destruct (65 <=? b) eqn:E1, (b <=? 90) eqn:E2; simpl;
    rewrite ?Z.leb_le, ?Z.leb_gt in *; lia.
Qed.

Lemma IsSpace_letter (r : Z) : 65 <= r <= 122 -> IsSpace r = false.
Proof.
  intros Hr. unfold IsSpace.
  rewrite (proj2 (Z.leb_le r 255)) by lia. simpl.
  repeat (rewrite (proj2 (Z.eqb_neq _ _)) by lia; simpl). reflexivity.
Qed.

Lemma IsSpace_lower_byte (b : Z) : IsSpace (lower_byte b) = IsSpace b.
Proof.
  unfold lower_byte, in_range.
  destruct (65 <=? b) eqn:E1, (b <=? 90) eqn:E2; simpl; try reflexivity.
  apply Z.leb_le in E1. apply Z.leb_le in E2.
  rewrite !IsSpace_letter by lia. reflexivity.
Qed.

Lemma DecodeRune_ascii (b : Z) (bs : list Z) :
  ascii_byte b -> DecodeRune (b :: bs) = (b, 1%nat).
Proof. intros Hb. unfold DecodeRune, ascii_byte in *. rewrite (proj2 (Z.ltb_lt b 128)) by lia. reflexivity. Qed.

Lemma DecodeLastRune_ascii (bs : list Z) (b : Z) :
  last bs = Some b -> ascii_byte b -> DecodeLastRune bs = (b, 1%nat).
Proof.
  intros Hl Hb. unfold DecodeLastRune. rewrite Hl. unfold ascii_byte in Hb.
  rewrite (proj2 (Z.ltb_lt b 128)) by lia. reflexivity.
Qed.

Lemma lower_byte_ascii (b : Z) : ascii_byte b -> ascii_byte (lower_byte b).
Proof.
  unfold ascii_byte, lower_byte, in_range. intros Hb.
  destruct (65 <=? b) eqn:E1, (b <=? 90) eqn:E2; simpl;
    rewrite ?Z.leb_le, ?Z.leb_gt in *; lia.
Qed.

Lemma head_ok_lower (bs : list Z) :
  Forall ascii_byte bs -> head_ok (map lower_byte bs) = head_ok bs.
Proof.
  intros H. destruct bs as [|b bs']; [reflexivity|]. inversion H; subst.
  simpl map. unfold head_ok.
  rewrite (DecodeRune_ascii (lower_byte b)) by (apply lower_byte_ascii; assumption).
  rewrite DecodeRune_ascii by assumption. simpl. rewrite IsSpace_lower_byte. reflexivity.
Qed.

Lemma last_ok_lower (bs : list Z) :
  Forall ascii_byte bs -> last_ok (map lower_byte bs) = last_ok bs.
Proof.
  intros H. destruct (last bs) as [l|] eqn:Hl.
  - assert (Hla : ascii_byte l).
    { rewrite Forall_forall in H. apply H. apply last_Some_elem_of, Hl. }
    apply last_Some in Hl as [bs' ->].
    rewrite map_app. simpl map.
    assert (Hne : forall A (x : list A) y, x ++ [y] <> []) by (intros A x y; destruct x; discriminate).
    unfold last_ok.
    destruct (bs' ++ [l]) eqn:E1; [exfalso; eapply Hne; exact E1|].
    destruct (map lower_byte bs' ++ [lower_byte l]) eqn:E2; [exfalso; eapply Hne; exact E2|].
    rewrite <- E1, <- E2.
    rewrite (DecodeLastRune_ascii _ (lower_byte l)) by first [apply last_snoc | apply lower_byte_ascii, Hla].
    rewrite (DecodeLastRune_ascii _ l) by first [apply last_snoc | exact Hla].
    simpl. rewrite IsSpace_lower_byte. reflexivity.
  - apply last_None in Hl. subst. reflexivity.
Qed.

Lemma String_eqb_empty (s : string) : String.eqb s "" = Nat.eqb (String.length s) 0.
Proof. destruct s; reflexivity. Qed.

Lemma length_of_bytes_map (s : string) (f : Z -> Z) (t : string) :
  bytes t = map f (bytes s) -> String.length t = String.length s.
Proof.
  intros H. rewrite <- !length_bytes, H, length_map. reflexivity.
Qed.

Lemma ContainsAt_lower (bs : list Z) :
  Forall ascii_byte bs ->
  existsb (Z.eqb 64) (map lower_byte bs) = existsb (Z.eqb 64) bs.
Proof.
  induction 1 as [|b bs Hb _ IH]; [reflexivity|]. cbn [existsb map]. rewrite IH. f_equal.
  unfold lower_byte, in_range.
  destruct (65 <=? b) eqn:E1, (b <=? 90) eqn:E2; cbn [andb]; try reflexivity.
  apply Z.leb_le in E1. apply Z.leb_le in E2.
  destruct (Z.eqb_spec 64 (b + 32)), (Z.eqb_spec 64 b); (reflexivity || lia).
Qed.

(** For an ASCII e-mail, re-validating the stored form gives the same verdict. *)
Lemma validateEmail_stored_ascii (email : string) :
  Forall ascii_byte (bytes email) ->
  validateEmail (ToLower (TrimSpace email)) = validateEmail email.
Proof.
  intros Ha.
  set (T := TrimSpace email).
  assert (HaT : Forall ascii_byte (bytes T)) by (apply TrimSpace_Forall, Ha).
  destruct (TrimSpace_bytes_ok email) as (_ & Hh & Hl). fold T in Hh, Hl.
  assert (HL : bytes (ToLower T) = map lower_byte (bytes T)) by (apply ToLower_ascii_bytes, HaT).
  assert (HTL : TrimSpace (ToLower T) = ToLower T).
  { apply TrimSpace_of_ok; rewrite HL; [rewrite head_ok_lower|rewrite last_ok_lower]; assumption. }
  unfold validateEmail. rewrite HTL. fold T.
  rewrite !String_eqb_empty, (length_of_bytes_map T lower_byte (ToLower T) HL).
  unfold ContainsAt. rewrite HL, ContainsAt_lower by exact HaT. reflexivity.
Qed.

Lemma validateName_trimmed (name : string) :
  validateName (TrimSpace name) = validateName name.
Proof. unfold validateName. rewrite TrimSpace_idempotent. reflexivity. Qed.

Lemma validateEmail_trimmed (email : string) :
  validateEmail (TrimSpace email) = validateEmail email.
Proof. unfold validateEmail. rewrite TrimSpace_idempotent. reflexivity. Qed.

(** [NewUser] and [isValidUser]: a user built by [NewUser] from an ASCII
    e-mail passes [isValidUser]; with a non-UTF-8 byte in the e-mail,
    [strings.ToLower] replaces it by U+FFFD (3 bytes), and a 255-byte e-mail
    accepted by [NewUser] is stored as 257 bytes, which [isValidUser] rejects. *)
Theorem NewUser_isValidUser :
  (forall t email name password u,
     NewUser t email name password = Ok u ->
     Forall ascii_byte (bytes email) -> isValidUser u = true)
  /\ (exists u, NewUser 0 long_email "Ann" "secret1" = Ok u /\ isValidUser u = false).
Proof.
  split.
  - intros t email name password u Hn Ha. unfold NewUser in Hn.
    destruct (validateEmail email) eqn:He; [discriminate|].
    destruct (validateName name) eqn:Hm; [discriminate|].
    destruct (validatePassword password) eqn:Hp; [discriminate|].
    injection Hn as <-. unfold isValidUser; simpl.
    rewrite validateEmail_stored_ascii, He, validateName_trimmed, Hm, Hp by exact Ha.
    reflexivity.
  - eexists. split; [vm_compute; reflexivity|vm_compute; reflexivity].
Qed.

(** [ChangePassword] keeps a valid user valid; [UpdateUserProfile] does too
    when the new e-mail is ASCII, and can break validity otherwise. *)
Theorem mutators_keep_isValidUser :
  (forall t pw u, isValidUser u = true -> isValidUser (snd (ChangePassword t pw u)) = true)
  /\ (forall t name email u, isValidUser u = true -> Forall ascii_byte (bytes email) ->
        isValidUser (snd (UpdateUserProfile t name email u)) = true)
  /\ (exists u, NewUser 0 "ann@example.com" "Ann" "secret1" = Ok u
        /\ isValidUser u = true
        /\ isValidUser (snd (UpdateUserProfile 1 "Ann" long_email u)) = false).
Proof.
  split; [|split].
  - intros t pw u Hv. unfold ChangePassword.
    destruct (validatePassword pw) eqn:Hp; [exact Hv|].
    unfold isValidUser in *; simpl in *. rewrite Hp.
    apply andb_prop in Hv as [Hv _]. rewrite Hv. reflexivity.
  - intros t name email u Hv Ha. unfold UpdateUserProfile.
    destruct (validateName name) eqn:Hm; [exact Hv|].
    destruct (validateEmail email) eqn:He; [exact Hv|].
    unfold isValidUser in *; simpl in *.
    rewrite validateEmail_stored_ascii, He, validateName_trimmed, Hm by exact Ha.
    apply andb_prop in Hv as [_ Hv]. rewrite Hv. reflexivity.
  - eexists. split; [vm_compute; reflexivity|split; vm_compute; reflexivity].
Qed.

End StrFacts.

(* ------------------------------------------------------------------ *)
(** ** The mock's [Create] *)

Module MockFacts.
Import GoStr Entities Heap Repo UseCases Mock MockInv.

Lemma mock_Create_duplicate (user : loc) (u : User) (w : World MockUserRepository) :
  heap w !! user = Some u -> is_Some (emails (st w) !! Email u) ->
  mock_Create user w = (Some (Err "email déjà utilisé"), w).
Proof.
  intros Hu [q Hq]. unfold mock_Create, mbind, M_bind, get_st, load, mret, M_ret.
  cbv beta iota. rewrite Hu. cbv iota beta. rewrite Hq. reflexivity.
Qed.

Lemma mock_Create_success (user : loc) (u : User) (w : World MockUserRepository) :
  heap w !! user = Some u -> emails (st w) !! Email u = None ->
  let id := nextID (st w) in
  let c := next_loc w in
  mock_Create user w =
    (Some (Ok c),
     mkWorld (<[c := with_ID id u]> (<[user := with_ID id u]> (heap w)))
       (Pos.succ c) (clock w) (logs w) (pending w)
       (mkMock (<[id := c]> (users (st w))) (<[Email u := c]> (emails (st w)))
          (wrap64 (id + 1)))).
Proof.
  intros Hu Hn. cbv zeta.
  unfold mock_Create, mbind, M_bind, get_st, load, mret, M_ret, store, put_st, alloc,
    set_heap, set_st.
  repeat progress (cbv beta iota; rewrite ?Hu, ?Hn, ?lookup_insert_eq;
    cbn [heap next_loc clock logs pending st users emails nextID ID Email]).
  reflexivity.
Qed.

(** [MockUserRepository.Create] of repo.md on a fresh e-mail: it sets the
    caller's [ID] to [nextID], stores a copy at a fresh pointer, indexes the
    copy under the ID and the e-mail, increments [nextID] (wrapping to the least [int]
    after the greatest), touches nothing else, and a later [Create] of any object with that e-mail is rejected
    without effect. *)
Theorem mock_Create_indexes (user : loc) (u : User) (w : World MockUserRepository)
  (Hwf : heap_wf w) (Hu : heap w !! user = Some u) (Hn : emails (st w) !! Email u = None) :
  let id := nextID (st w) in
  let c := next_loc w in
  let w' := snd (mock_Create user w) in
  fst (mock_Create user w) = Some (Ok c)
  /\ heap w !! c = None
  /\ heap w' !! c = Some (with_ID id u)
  /\ heap w' !! user = Some (with_ID id u)
  /\ (forall q, q <> c -> q <> user -> heap w' !! q = heap w !! q)
  /\ users (st w') !! id = Some c
  /\ (forall k, k <> id -> users (st w') !! k = users (st w) !! k)
  /\ emails (st w') !! Email u = Some c
  /\ (forall e, e <> Email u -> emails (st w') !! e = emails (st w) !! e)
  /\ (-2 ^ 63 <= id < 2 ^ 63 - 1 -> nextID (st w') = id + 1)
  /\ (id = 2 ^ 63 - 1 -> nextID (st w') = -2 ^ 63)
  /\ (forall user2 u2, heap w' !! user2 = Some u2 -> Email u2 = Email u ->
        mock_Create user2 w' = (Some (Err "email déjà utilisé"), w')).
Proof.
  cbv zeta. rewrite (mock_Create_success user u w Hu Hn). cbn [fst snd heap st users emails nextID].
  assert (Hc : heap w !! next_loc w = None).
  { destruct (heap w !! next_loc w) eqn:E; [|reflexivity]. apply Hwf in E. lia. }
  split; [reflexivity|]. split; [exact Hc|]. split; [apply lookup_insert_eq|].
  split.
  { destruct (decide (user = next_loc w)) as [->|Hne]; [congruence|].
    rewrite lookup_insert_ne by congruence. apply lookup_insert_eq. }
  split; [intros q H1 H2; rewrite !lookup_insert_ne by congruence; reflexivity|].
  split; [apply lookup_insert_eq|].
  split; [intros k Hk; apply lookup_insert_ne; congruence|].
  split; [apply lookup_insert_eq|].
  split; [intros e He; apply lookup_insert_ne; congruence|].
  split; [intros Hb; unfold wrap64; rewrite Z.mod_small; lia|].
  split; [intros Hb; rewrite Hb; reflexivity|].
  intros user2 u2 Hu2 He2. apply mock_Create_duplicate with (u := u2); [exact Hu2|].
  cbn [st emails]. rewrite He2, lookup_insert_eq. eauto.
Qed.

(** [MockUserRepository.Create] keeps the index invariant [store_wf] (and
    the bounds on pointers and IDs) when the caller's object is not a stored
    record, its e-mail is normalised and [nextID] is below the greatest [int]; existing IDs are never remapped; a
    nil [user] panics without effect. *)
Theorem mock_Create_keeps_store_wf (user : loc) (w : World MockUserRepository)
  (Hwf : heap_wf w) (Hids : ids_below (st w)) (Hst : store_wf w)
  (Hnot : map_Forall (fun _ p => p <> user) (users (st w)))
  (Hbound : -2 ^ 63 <= nextID (st w) < 2 ^ 63 - 1) :
  match heap w !! user with
  | None => mock_Create user w = (None, w)
  | Some u =>
    normalize (Email u) = Email u ->
    let w' := snd (mock_Create user w) in
    store_wf w' /\ heap_wf w' /\ ids_below (st w')
    /\ users (st w) ⊆ users (st w')
  end.
Proof.
  destruct (heap w !! user) as [u|] eqn:Hu.
  2:{ unfold mock_Create, mbind, M_bind, get_st, load. cbv beta iota. rewrite Hu. reflexivity. }
  intros Hnorm. cbv zeta.
  destruct (emails (st w) !! Email u) as [q|] eqn:Hn.
  { rewrite (mock_Create_duplicate user u w Hu ltac:(eauto)). cbn [snd].
    repeat split; try assumption. reflexivity. }
  rewrite (mock_Create_success user u w Hu Hn). cbn [snd].
  assert (Hc : heap w !! next_loc w = None).
  { destruct (heap w !! next_loc w) eqn:E; [|reflexivity]. apply Hwf in E. lia. }
  assert (Hid : users (st w) !! nextID (st w) = None).
  { destruct (users (st w) !! nextID (st w)) eqn:E; [|reflexivity]. apply Hids in E. lia. }
  split; [|split; [|split]].
  - unfold store_wf. cbn [st users]. apply map_Forall_insert_2.
    + unfold wf_entry. cbn [heap st emails]. rewrite lookup_insert_eq. unfold with_ID. cbn [Email].
      rewrite lookup_insert_eq, bool_decide_true by reflexivity. cbn [andb].
      rewrite Hnorm. apply String.eqb_refl.
    + intros k p Hkp. pose proof (Hst k p Hkp) as Hp. pose proof (Hnot k p Hkp) as Hpu.
      unfold wf_entry in Hp |- *. cbn [heap st emails].
      destruct (heap w !! p) as [v|] eqn:Hv; [|discriminate].
      assert (Hpc : p <> next_loc w) by (intros ->; congruence).
      rewrite !lookup_insert_ne by congruence. rewrite Hv.
      apply andb_prop in Hp as [He Hnv]. apply bool_decide_eq_true in He.
      assert (Hev : Email v <> Email u) by (intros Heq; congruence).
      rewrite lookup_insert_ne by congruence. rewrite He, bool_decide_true by reflexivity.
      exact Hnv.
  - unfold heap_wf. cbn [heap next_loc]. apply map_Forall_insert_2; [cbv beta; lia|].
    apply map_Forall_insert_2.
    + assert (Hlt : (user < next_loc w)%positive) by exact (Hwf user u Hu). cbv beta. lia.
    + intros p v Hv. pose proof (Hwf p v Hv). cbv beta in *. lia.
  - unfold ids_below. cbn [st users nextID].
    assert (Hw : wrap64 (nextID (st w) + 1) = nextID (st w) + 1)
      by (unfold wrap64; rewrite Z.mod_small; lia).
    rewrite Hw. apply map_Forall_insert_2; [cbv beta; lia|].
    intros k p Hkp. pose proof (Hids k p Hkp). cbv beta in *. lia.
  - cbn [st users]. apply insert_subseteq. exact Hid.
Qed.

Lemma mock_Create_indexes_witness :
  heap_wf world_bob
  /\ users (st (snd (mock_Create 3%positive world_bob))) !! 2 = Some 4%positive
  /\ mock_Create 3%positive (snd (mock_Create 3%positive world_bob))
     = (Some (Err "email déjà utilisé"), snd (mock_Create 3%positive world_bob)).
Proof.
  assert (Hwf : heap_wf world_bob) by (unfold heap_wf; apply (bool_decide_unpack _); vm_compute; reflexivity).
  assert (Hu : heap world_bob !! 3%positive = Some bob) by (vm_compute; reflexivity).
  assert (Hn : emails (st world_bob) !! Email bob = None) by (vm_compute; reflexivity).
  destruct (mock_Create_indexes 3%positive bob world_bob Hwf Hu Hn)
    as (_ & _ & _ & Hheap & _ & Hid & _ & _ & _ & _ & _ & Hdup).
  assert (Hc : next_loc world_bob = 4%positive) by (vm_compute; reflexivity).
  assert (Hi : nextID (st world_bob) = 2) by (vm_compute; reflexivity).
  rewrite Hc, Hi in Hid.
  split; [exact Hwf|]. split; [exact Hid|].
  apply (Hdup 3%positive (with_ID (nextID (st world_bob)) bob) Hheap). reflexivity.
Defined.

Lemma mock_Create_keeps_store_wf_witness :
  store_wf world_bob /\ store_wf (snd (mock_Create 3%positive world_bob)).
Proof.
  assert (Hwf : heap_wf world_bob) by (unfold heap_wf; apply (bool_decide_unpack _); vm_compute; reflexivity).
  assert (Hids : ids_below (st world_bob))
    by (unfold ids_below; apply (bool_decide_unpack _); vm_compute; reflexivity).
  assert (Hst : store_wf world_bob) by (unfold store_wf; apply (bool_decide_unpack _); vm_compute; reflexivity).
  assert (Hnot : map_Forall (fun _ p => p <> 3%positive) (users (st world_bob)))
    by (apply (bool_decide_unpack _); vm_compute; reflexivity).
  assert (Hbound : -2 ^ 63 <= nextID (st world_bob) < 2 ^ 63 - 1).
  { assert (Hi : nextID (st world_bob) = 2) by (vm_compute; reflexivity). rewrite Hi. lia. }
  pose proof (mock_Create_keeps_store_wf 3%positive world_bob Hwf Hids Hst Hnot Hbound) as T.
  match type of T with
  | match ?x with _ => _ end =>
    assert (E : x = Some bob) by (vm_compute; reflexivity); rewrite E in T
  end.
  cbv iota beta zeta in T.
  split; [exact Hst|]. apply T. reflexivity.
Defined.

End MockFacts.

(* ------------------------------------------------------------------ *)
(** ** The demonstration repository *)

Module DemoFacts.
Import Entities Heap Demo.

Lemma dheap_wf_fresh (w : DWorld) : dheap_wf w -> dheap w !! dnext w = None.
Proof.
  intros Hwf. destruct (dheap w !! dnext w) eqn:E; [|reflexivity].
  apply Hwf in E. lia.
Qed.

Lemma stored_ne_fresh (r : DRepo) (w : DWorld) k q :
  dheap_wf w -> stored_live r w -> dusers r !! k = Some q -> (q < dnext w)%positive.
Proof.
  intros Hwf Hl Hq. destruct (Hl k q Hq) as [u Hu]. exact (Hwf q u Hu).
Qed.

(** [GetByID] of [part_000]: a missing ID gives "user not found"; otherwise
    the result is a fresh copy of the stored value, distinct from every stored
    pointer, and a write through it leaves every stored record unchanged. *)
Theorem demo_GetByID_copy (r : DRepo) (id : Z) (w : DWorld)
  (Hwf : dheap_wf w) (Hl : stored_live r w) :
  match dusers r !! id with
  | None => demo_GetByID r id w = (Some (Err "user not found"), w)
  | Some p =>
    exists u c w', dheap w !! p = Some u
      /\ demo_GetByID r id w = (Some (Ok c), w')
      /\ dheap w !! c = None
      /\ dheap w' = <[c := u]> (dheap w)
      /\ (forall k q, dusers r !! k = Some q -> q <> c)
      /\ (forall v k q, dusers r !! k = Some q -> <[c := v]> (dheap w') !! q = dheap w !! q)
  end.
Proof.
  unfold demo_GetByID. destruct (dusers r !! id) as [p|] eqn:Hp; [|reflexivity].
  destruct (Hl id p Hp) as [u Hu]. rewrite Hu.
  exists u, (dnext w), (snd (dalloc u w)).
  split; [reflexivity|]. split; [reflexivity|]. split; [apply dheap_wf_fresh, Hwf|].
  split; [reflexivity|].
  assert (Hne : forall k q, dusers r !! k = Some q -> q <> dnext w).
  { intros k q Hq ->. pose proof (stored_ne_fresh r w k _ Hwf Hl Hq). lia. }
  split; [exact Hne|].
  intros v k q Hq. cbn. rewrite !lookup_insert_ne by (symmetry; exact (Hne k q Hq)).
  reflexivity.
Qed.

Lemma Forall2_Forall_r_impl {A B} (R R' : A -> B -> Prop) (P : B -> Prop) l1 l2 :
  Forall P l2 -> Forall2 R l1 l2 -> (forall a b, P b -> R a b -> R' a b) -> Forall2 R' l1 l2.
Proof.
  intros HP HR Himp. induction HR; [constructor|]. inversion HP; subst. constructor; eauto.
Qed.

Lemma demo_List_spec (entries : list (Z * loc)) (w : DWorld) :
  dheap_wf w -> Forall (fun e => is_Some (dheap w !! e.2)) entries ->
  exists cs w', demo_List entries w = (Some cs, w')
    /\ Forall2 (fun c e => dheap w' !! c = dheap w !! e.2) cs entries
    /\ Forall (fun c => (dnext w <= c < dnext w')%positive) cs
    /\ NoDup cs
    /\ (forall q, (q < dnext w)%positive -> dheap w' !! q = dheap w !! q)
    /\ dheap_wf w' /\ (dnext w <= dnext w')%positive.
Proof.
  revert w. induction entries as [|[k p] rest IH]; intros w Hwf Hall.
  - exists [], w. repeat split; auto; try constructor; lia.
  - inversion Hall as [|? ? [u Hu] Hrest]; subst. cbn [demo_List]. cbn in Hu. rewrite Hu.
    cbn [dalloc]. set (w1 := mkDWorld (<[dnext w:=u]> (dheap w)) (Pos.succ (dnext w))).
    assert (Hw1 : dheap_wf w1).
    { intros q v Hq. cbn in Hq |- *. destruct (decide (q = dnext w)) as [->|Hne]; [lia|].
      rewrite lookup_insert_ne in Hq by congruence. apply Hwf in Hq. lia. }
    assert (Hold : forall q, (q < dnext w)%positive -> dheap w1 !! q = dheap w !! q).
    { intros q Hq. cbn. apply lookup_insert_ne. lia. }
    assert (Hrest1 : Forall (fun e => is_Some (dheap w1 !! e.2)) rest).
    { eapply Forall_impl; [exact Hrest|]. intros [k' p'] [v Hv]. cbn in Hv |- *.
      rewrite Hold; [eauto|]. exact (Hwf p' v Hv). }
    destruct (IH w1 Hw1 Hrest1) as (cs & w' & Hrun & HF2 & Hrange & Hnd & Hold' & Hwf' & Hle).
    rewrite Hrun. cbn [option_map].
    exists (dnext w :: cs), w'. cbn [dnext w1] in Hle, Hrange, Hold'.
    split; [reflexivity|].
    split; [|split; [|split; [|split]]].
    + constructor.
      * cbn. rewrite Hold' by lia. cbn. rewrite lookup_insert_eq. congruence.
      * eapply Forall2_Forall_r_impl; [exact Hrest|exact HF2|].
        intros c [k' p'] [v Hv] Hc. cbn in Hv, Hc |- *. rewrite Hc. apply Hold.
        exact (Hwf p' v Hv).
    + constructor; [cbn in *; lia|]. eapply Forall_impl; [exact Hrange|]. intros c Hc. cbv beta in *. lia.
    + constructor; [|exact Hnd]. intros Hin. rewrite Forall_forall in Hrange.
      specialize (Hrange _ Hin). lia.
    + intros q Hq. rewrite Hold' by lia. apply Hold. exact Hq.
    + split; [exact Hwf'|lia].
Qed.

(** [List] of [part_000]: whatever the map's iteration order, it returns one
    fresh copy per entry (as many as the map has), pairwise distinct, holding
    the stored values; no stored pointer is returned and no stored record is
    changed. *)
Theorem demo_List_copies (r : DRepo) (w : DWorld) (entries : list (Z * loc))
  (Hperm : Permutation entries (map_to_list (dusers r))) (Hwf : dheap_wf w) (Hl : stored_live r w) :
  exists cs w', demo_List entries w = (Some cs, w')
    /\ length cs = size (dusers r)
    /\ NoDup cs
    /\ Forall2 (fun c e => dheap w' !! c = dheap w !! e.2) cs entries
    /\ (forall k q, dusers r !! k = Some q -> (q ∉ cs) /\ dheap w' !! q = dheap w !! q).
Proof.
  assert (Hall : Forall (fun e => is_Some (dheap w !! e.2)) entries).
  { apply Forall_forall. intros [k p] Hin. rewrite Hperm, elem_of_map_to_list in Hin.
    exact (Hl k p Hin). }
  destruct (demo_List_spec entries w Hwf Hall)
    as (cs & w' & Hrun & HF2 & Hrange & Hnd & Hold & _ & _).
  exists cs, w'. split; [exact Hrun|].
  split; [|split; [exact Hnd|split; [exact HF2|]]].
  - rewrite (Forall2_length _ _ _ HF2), Hperm. apply length_map_to_list.
  - intros k q Hq. pose proof (stored_ne_fresh r w k q Hwf Hl Hq) as Hlt. split.
    + intros Hin. rewrite Forall_forall in Hrange. specialize (Hrange _ Hin). lia.
    + apply Hold, Hlt.
Qed.


Lemma demo_GetByID_copy_witness :
  dheap_wf demo_world /\ stored_live demo_repo demo_world
  /\ <[4%positive := mkDUser 1 "Modified Alice"]>
       (dheap (snd (demo_GetByID demo_repo 1 demo_world))) !! 1%positive
     = Some (mkDUser 1 "Alice").
Proof.
  assert (Hwf : dheap_wf demo_world) by (unfold dheap_wf; apply (bool_decide_unpack _); vm_compute; reflexivity).
  assert (Hl : stored_live demo_repo demo_world)
    by (unfold stored_live; apply (bool_decide_unpack _); vm_compute; reflexivity).
  pose proof (demo_GetByID_copy demo_repo 1 demo_world Hwf Hl) as T.
  assert (Hp : dusers demo_repo !! 1 = Some 1%positive) by reflexivity.
  match type of T with
  | match ?x with _ => _ end =>
    assert (E : x = Some 1%positive) by reflexivity; rewrite E in T
  end. destruct T as (u & c & w' & _ & Hrun & _ & _ & _ & Hkeep).
  split; [exact Hwf|]. split; [exact Hl|].
  rewrite Hrun. cbn [snd].
  assert (Hc : c = 4%positive).
  { vm_compute in Hrun. injection Hrun as Hc _. symmetry. exact Hc. }
  subst c. rewrite (Hkeep _ 1 1%positive Hp). reflexivity.
Defined.

Lemma demo_List_copies_witness :
  exists cs, fst (demo_List (map_to_list (dusers demo_repo)) demo_world) = Some cs
    /\ length cs = 2%nat /\ NoDup cs.
Proof.
  assert (Hwf : dheap_wf demo_world) by (unfold dheap_wf; apply (bool_decide_unpack _); vm_compute; reflexivity).
  assert (Hl : stored_live demo_repo demo_world)
    by (unfold stored_live; apply (bool_decide_unpack _); vm_compute; reflexivity).
  destruct (demo_List_copies demo_repo demo_world (map_to_list (dusers demo_repo))
              (Permutation_refl _) Hwf Hl) as (cs & w' & Hrun & Hlen & Hnd & _).
  exists cs. rewrite Hrun. split; [reflexivity|]. split; [|exact Hnd].
  rewrite Hlen. reflexivity.
Defined.


End DemoFacts.
